(** * omonOmon wallet: typed-data encoder, signing facade and WalletConnect client

    A shallow embedding of the [wallet] package: the EIP-712 style type
    encoder ([encodeType], [encodeTypeWithContext], [findTypeDependencies]),
    the value encoders, the signing entry points ([Sign], [PersonalSign],
    [TypedDataSign]), the pairing URI parser ([ParseWalletConnectURI]) and the
    two receive paths of the relay client ([HandleSessionRequest],
    [HandleRequests]); then the rest of the pairing flow ([ConnectToURI],
    [subscribe], [ApproveSession], [WalletConnect]), the wallet file
    ([Save], [LoadWallet]) and [SendTransactionFromRequest].

    Go strings are byte strings and are modelled by [string]; [[]byte] is
    [list byte]; a Go map is a [gmap], a Go set-like [map[string]bool] that
    only ever stores [true] is a [gset]. *)

From Stdlib Require Import ZArith NArith Strings.Byte Ascii String DecimalString.
From stdpp Require Import base option list sorting gmap strings.

(** ** The part of Go's [strings] package the wallet uses *)

Module GoStrings.

(** [strings.HasPrefix(s, prefix)]. *)
Definition HasPrefix (s pre : string) : bool := String.prefix pre s.

(** [strings.TrimPrefix(s, prefix)]: [s] without the leading [prefix], or [s]
    itself when it does not start with it. *)
Definition TrimPrefix (s pre : string) : string :=
  if HasPrefix s pre
  then String.substring (String.length pre) (String.length s - String.length pre) s
  else s.

(** [strings.Index(s, sep)] for a one-byte separator, returned as the two
    slices [s[:m]] and [s[m+1:]] around the first occurrence. *)
Fixpoint cut (sep : ascii) (s : string) : option (string * string) :=
  match s with
  | EmptyString => None
  | String c rest =>
      if Ascii.eqb c sep then Some (EmptyString, rest)
      else match cut sep rest with
           | Some (a, b) => Some (String c a, b)
           | None => None
           end
  end.

(** [strings.Count(s, sep)] for a one-byte separator. *)
Fixpoint Count (sep : ascii) (s : string) : nat :=
  match s with
  | EmptyString => 0
  | String c rest => (if Ascii.eqb c sep then 1 else 0) + Count sep rest
  end.

(** The loop of [genSplit]: at most [n] pieces, the last one unsplit. *)
Fixpoint genSplit (n : nat) (sep : ascii) (s : string) : list string :=
  match n with
  | 0 => []
  | 1 => [s]
  | S n' =>
      match cut sep s with
      | None => [s]
      | Some (a, rest) => a :: genSplit n' sep rest
      end
  end.

(** [strings.SplitN(s, sep, n)] for [n > 0] and a one-byte [sep]. *)
Definition SplitN (s : string) (sep : ascii) (n : nat) : list string :=
  genSplit n sep s.

(** [strings.Split(s, sep)], which is [SplitN] with [n = Count(s, sep) + 1]. *)
Definition Split (s : string) (sep : ascii) : list string :=
  genSplit (S (Count sep s)) sep s.

(** [strings.Join(elems, "")]. *)
Definition Join (elems : list string) : string := String.concat "" elems.

End GoStrings.

(** ** Typed data (EIP-712) structures *)

(** [TypedDataType]: one field of a type definition.  The source calls the
    second field [Type], a reserved word here. *)
Record TypedDataType : Type := mkField { Name : string; Type_ : string }.

(** [map[string][]TypedDataType]. *)
Abbreviation TypeSet := (gmap string (list TypedDataType)).

(** [sort.Strings]: sorts by the bytewise lexicographic order of Go strings,
    [String.le].  The order is total and antisymmetric, so the result is the
    one sorted permutation of the argument whatever algorithm computes it. *)
Definition sort_Strings (l : list string) : list string := merge_sort String.le l.

Section Encoder.

(** Go leaves the order in which [range] visits a map unspecified.  The order
    is an explicit input of the model: given the keys of a map it returns
    them in the order this run visits them. *)
Variable rangeOrder : list string -> list string.

(** The inner loop of [findTypeDependencies] over the fields of the current
    type: a field type that is a key of [types] and not yet in [deps] is
    marked and queued. *)
Fixpoint scanFields (types : TypeSet) (fields : list TypedDataType)
    (deps : gset string) (queue : list string) : gset string * list string :=
  match fields with
  | [] => (deps, queue)
  | field :: rest =>
      match types !! Type_ field with
      | Some _ =>
          if decide (Type_ field ∈ deps) then scanFields types rest deps queue
          else scanFields types rest ({[Type_ field]} ∪ deps) (queue ++ [Type_ field])
      | None => scanFields types rest deps queue
      end
  end.

(** The outer loop [for i := 0; i < len(queue); i++], with the queue growing
    while it is walked.  [fuel] bounds the number of iterations; [None] means
    the bound was too small. *)
Fixpoint depsLoop (fuel : nat) (types : TypeSet) (i : nat)
    (deps : gset string) (queue : list string) : option (gset string) :=
  match queue !! i with
  | None => Some deps
  | Some currentType =>
      match fuel with
      | 0 => None
      | S fuel' =>
          let fields := default [] (types !! currentType) in
          let '(deps', queue') := scanFields types fields deps queue in
          depsLoop fuel' types (S i) deps' queue'
      end
  end.

(** [findTypeDependencies]: every type reachable from [typeName] through
    field types that are keys of [types], as an unordered slice. *)
Definition findTypeDependencies (typeName : string) (types : TypeSet)
    : option (list string) :=
  deps ← depsLoop (S (size types)) types 0 ∅ [typeName];
  Some (rangeOrder (elements deps)).

(** The loop [for i, field := range primaryType] building the parenthesised
    field list. *)
Fixpoint encodeFields (i : nat) (fields : list TypedDataType) : string :=
  match fields with
  | [] => ""
  | field :: rest =>
      (if decide (0 < i) then "," else "")
        +:+ Type_ field +:+ " " +:+ Name field +:+ encodeFields (S i) rest
  end.

(** The loop [for _, dep := range deps] of [encodeTypeWithContext], given the
    recursive call [rec]; the [processing] map is threaded through. *)
Fixpoint encodeDeps (rec : string -> gset string -> option (string * gset string))
    (typeName : string) (deps : list string) (encoded : list string)
    (processing : gset string) : option (list string * gset string) :=
  match deps with
  | [] => Some (encoded, processing)
  | dep :: rest =>
      if decide (dep ≠ typeName) then
        '(result, processing') ← rec dep processing;
        encodeDeps rec typeName rest
          (if decide (result ≠ "") then encoded ++ [result] else encoded)
          processing'
      else encodeDeps rec typeName rest encoded processing
  end.

(** [encodeTypeWithContext].  The result is the returned string together
    with the [processing] map as the call leaves it (the deferred [delete]
    has run).  [fuel] bounds the recursion depth. *)
Fixpoint encodeTypeWithContext (fuel : nat) (typeName : string)
    (types : TypeSet) (processing : gset string)
    : option (string * gset string) :=
  match fuel with
  | 0 => None
  | S fuel' =>
      if decide (typeName ∈ processing) then Some ("", processing)
      else
        let processing1 := {[typeName]} ∪ processing in
        let primaryType := default [] (types !! typeName) in
        deps ← findTypeDependencies typeName types;
        let deps := sort_Strings deps in
        '(encoded, processing2) ←
          encodeDeps (fun dep p => encodeTypeWithContext fuel' dep types p)
            typeName deps [] processing1;
        let result := typeName +:+ "(" +:+ encodeFields 0 primaryType +:+ ")" in
        Some (GoStrings.Join (encoded ++ [result]), processing2 ∖ {[typeName]})
  end.

(** [encodeType]: a fresh [processing] map per top-level call. *)
Definition encodeType (typeName : string) (types : TypeSet) : option string :=
  fst <$> encodeTypeWithContext (S (size types)) typeName types ∅.

End Encoder.


(** A [range] order visits every key exactly once. *)
Definition visitsEachOnce (rangeOrder : list string → list string) : Prop :=
  ∀ l, rangeOrder l ≡ₚ l.

(** What the two loops of [findTypeDependencies] maintain: the queue holds
    the start type and each marked dependency once, and only keys of [types]
    are marked. *)
Definition depsInv (types : TypeSet) (deps : gset string) (queue : list string)
    : Prop :=
  length queue = S (size deps) ∧ deps ⊆ dom types.

(** Sample type sets: a two-type cycle, a chain, and one dependency. *)
Definition tsAB : TypeSet :=
  <["A" := [mkField "b" "B"]]> (<["B" := [mkField "a" "A"]]> ∅).

Definition tsChain : TypeSet :=
  <["A" := [mkField "b" "B"; mkField "n" "uint256"]]>
    (<["B" := [mkField "c" "C"]]> (<["C" := []]> ∅)).

Definition tsDep : TypeSet :=
  <["A" := [mkField "b" "B"]]> (<["B" := []]> ∅).

(** A type set without cycles: no type is among its own dependencies. *)
Definition acyclicb (types : TypeSet) : bool :=
  forallb
    (fun k => match depsLoop (S (size types)) types 0 ∅ [k] with
              | Some d => bool_decide (k ∉ d)
              | None => false
              end)
    (elements (dom types)).

Definition acyclic (types : TypeSet) : Prop := acyclicb types = true.

Definition chainEntries : list (string * list TypedDataType) :=
  [("A", [mkField "b" "B"; mkField "n" "uint256"]);
   ("B", [mkField "c" "C"]); ("C", [])].

(** ** Bytes, [encoding/hex], [hexutil] and [common.Address] *)

Definition byte_of_N (n : N) : byte := byte_of_ascii (ascii_of_N n).
Definition N_of_byte (b : byte) : N := N_of_ascii (ascii_of_byte b).

(** [[]byte(s)] for a string [s]. *)
Definition bytes_of_string (s : string) : list byte := String.list_byte_of_string s.

Module GoHex.

Inductive hexError : Type :=
| ErrLength                      (* "encoding/hex: odd length hex string" *)
| InvalidByteError (c : ascii).  (* "encoding/hex: invalid byte: ..." *)

(** [reverseHexTable]: the value of a hexadecimal digit of either case. *)
Definition fromHexChar (c : ascii) : option N :=
  let n := N_of_ascii c in
  if (48 <=? n)%N && (n <=? 57)%N then Some (n - 48)%N
  else if (97 <=? n)%N && (n <=? 102)%N then Some (n - 87)%N
  else if (65 <=? n)%N && (n <=? 70)%N then Some (n - 55)%N
  else None.

(** [hex.DecodeString]: the bytes decoded before the first problem, and the
    problem if there is one.  An invalid character is reported before an odd
    length. *)
Fixpoint DecodeString (s : string) : list byte * option hexError :=
  match s with
  | EmptyString => ([], None)
  | String p EmptyString =>
      match fromHexChar p with
      | None => ([], Some (InvalidByteError p))
      | Some _ => ([], Some ErrLength)
      end
  | String p (String q rest) =>
      match fromHexChar p with
      | None => ([], Some (InvalidByteError p))
      | Some a =>
          match fromHexChar q with
          | None => ([], Some (InvalidByteError q))
          | Some b =>
              let '(bs, err) := DecodeString rest in
              (byte_of_N (a * 16 + b) :: bs, err)
          end
      end
  end.

Definition hexDigit (n : N) : ascii :=
  if (n <? 10)%N then ascii_of_N (48 + n) else ascii_of_N (87 + n).

(** [hex.EncodeToString]. *)
Fixpoint EncodeToString (bs : list byte) : string :=
  match bs with
  | [] => EmptyString
  | b :: rest =>
      String (hexDigit (N_of_byte b / 16))
        (String (hexDigit (N_of_byte b mod 16)) (EncodeToString rest))
  end.

End GoHex.

(** A well-formed hexadecimal text: an even number of hexadecimal digits. *)
Definition isHexDigit (c : ascii) : bool :=
  let n := N_of_ascii c in
  ((48 <=? n)%N && (n <=? 57)%N) || ((97 <=? n)%N && (n <=? 102)%N)
  || ((65 <=? n)%N && (n <=? 70)%N).

Definition validHex (s : string) : bool :=
  Nat.even (String.length s) && forallb isHexDigit (list_ascii_of_string s).

(** [hexutil.Encode]. *)
Definition hexutil_Encode (bs : list byte) : string := "0x" +:+ GoHex.EncodeToString bs.

(** [common.FromHex]: an optional [0x] or [0X] prefix is dropped, an odd
    number of digits is padded with a leading zero, and decoding problems
    are ignored ([Hex2Bytes] keeps what was decoded). *)
Definition FromHex (s : string) : list byte :=
  let s := if GoStrings.HasPrefix s "0x" || GoStrings.HasPrefix s "0X"
           then String.substring 2 (String.length s - 2) s else s in
  let s := if Nat.odd (String.length s) then "0" +:+ s else s in
  (GoHex.DecodeString s).1.

Definition AddressLength : nat := 20.

(** [common.BytesToAddress]: the last 20 bytes, padded on the left. *)
Definition BytesToAddress (b : list byte) : list byte :=
  let b := drop (length b - AddressLength) b in
  replicate (AddressLength - length b) Byte.x00 ++ b.

(** [common.HexToAddress(s).Bytes()]. *)
Definition HexToAddress (s : string) : list byte := BytesToAddress (FromHex s).

(** [Bytes] of [big.Int]: the magnitude, big-endian, without leading zeros. *)
Fixpoint bytes_be (fuel : nat) (n : N) (acc : list byte) : list byte :=
  match fuel with
  | 0 => acc
  | S fuel' =>
      if (n =? 0)%N then acc
      else bytes_be fuel' (n / 256) (byte_of_N (n mod 256) :: acc)
  end.

Definition BigInt_Bytes (z : Z) : list byte :=
  bytes_be (N.to_nat (N.size (Z.abs_N z))) (Z.abs_N z) [].

(** ** Errors of the wallet package

    Each constructor is one [fmt.Errorf] of the source, or an error handed
    up from a library. *)
Inductive error : Type :=
| ErrHex (e : GoHex.hexError)
| ErrLibrary (msg : string)
| ErrInvalidPrivateKey (cause : error)     (* "invalid private key: %v" *)
| ErrFailedToSignMessage (cause : error)   (* "failed to sign message: %v" *)
| ErrFailedToSignTypedData (cause : error) (* "failed to sign typed data: %v" *)
| ErrMissingValue (field : string)         (* "missing value for field: %s" *)
| ErrInvalidStringValue                    (* "invalid string value" *)
| ErrInvalidUint256Value                   (* "invalid uint256 value" *)
| ErrInvalidAddressValue                   (* "invalid address value" *)
| ErrUnsupportedType (typ : string)        (* "unsupported type: %s" *)
| ErrURIMissingQuery     (* "invalid URI format: missing query parameters" *)
| ErrURIMissingVersion   (* "invalid URI format: missing version" *)
| ErrFailedToReadMessage (cause : error)   (* "failed to read message: %v" *)
| ErrFailedToParseSessionRequest (cause : error).
                                 (* "failed to parse session request: %v" *)

Definition isInvalidURIFormat (e : error) : Prop :=
  e = ErrURIMissingQuery ∨ e = ErrURIMissingVersion.

(** A Go function either returns or panics; a run of the model may also
    exhaust the fuel of a bounded loop. *)
Inductive outcome (A : Type) : Type :=
| Returns (a : A)
| Panics (why : string)
| OutOfFuel.
Arguments Returns {A} a.
Arguments Panics {A} why.
Arguments OutOfFuel {A}.

(** ** Value encoders *)

(** The dynamic values an [interface{}] of the message map can hold. *)
Inductive value : Type :=
| VString (s : string)
| VBigInt (n : Z)       (* a non-nil [*big.Int] *)
| VBigIntNil            (* a nil pointer of type [*big.Int] *)
| VOther.               (* any other dynamic type, the nil interface included *)

Module TypedDataDomain.
Record t : Type := mk {
  Name : string;
  Version : string;
  ChainId : option Z;            (* [*big.Int], [None] for nil *)
  VerifyingContract : string;
  Salt : string
}.
End TypedDataDomain.

Record TypedData : Type := mkTypedData {
  Types : TypeSet;
  PrimaryType : string;
  Domain : TypedDataDomain.t;
  Message : gmap string value
}.

(** [encodeDomainValues]. *)
Definition encodeDomainValues (domain : TypedDataDomain.t)
    : list byte * option error :=
  let values := bytes_of_string (TypedDataDomain.Name domain) in
  let values := values ++ bytes_of_string (TypedDataDomain.Version domain) in
  let values := match TypedDataDomain.ChainId domain with
                | Some n => values ++ BigInt_Bytes n
                | None => values
                end in
  let values := if decide (TypedDataDomain.VerifyingContract domain ≠ "")
                then values ++ HexToAddress (TypedDataDomain.VerifyingContract domain)
                else values in
  if decide (TypedDataDomain.Salt domain ≠ "") then
    match GoHex.DecodeString (GoStrings.TrimPrefix (TypedDataDomain.Salt domain) "0x") with
    | (_, Some err) => ([], Some (ErrHex err))
    | (salt, None) => (values ++ salt, None)
    end
  else (values, None).

(** [encodeValue].  Under [uint256] the type assertion to a [big.Int]
    pointer holds for a nil pointer of that type too, and [num.Bytes()]
    then reads through it: the call panics. *)
Definition encodeValue (v : value) (typ : string)
    : outcome (list byte * option error) :=
  if decide (typ = "string") then
    match v with
    | VString str => Returns (bytes_of_string str, None)
    | _ => Returns ([], Some ErrInvalidStringValue)
    end
  else if decide (typ = "uint256") then
    match v with
    | VBigInt num => Returns (BigInt_Bytes num, None)
    | VBigIntNil => Panics "invalid memory address or nil pointer dereference"
    | _ => Returns ([], Some ErrInvalidUint256Value)
    end
  else if decide (typ = "address") then
    match v with
    | VString addr => Returns (HexToAddress addr, None)
    | _ => Returns ([], Some ErrInvalidAddressValue)
    end
  else Returns ([], Some (ErrUnsupportedType typ)).

(** The loop of [encodeMessageValues], with the bytes collected so far. *)
Fixpoint encodeMessageLoop (message : gmap string value)
    (types : list TypedDataType) (values : list byte)
    : outcome (list byte * option error) :=
  match types with
  | [] => Returns (values, None)
  | field :: rest =>
      match message !! Name field with
      | None => Returns ([], Some (ErrMissingValue (Name field)))
      | Some val =>
          match encodeValue val (Type_ field) with
          | Returns (_, Some err) => Returns ([], Some err)
          | Returns (encoded, None) =>
              encodeMessageLoop message rest (values ++ encoded)
          | Panics why => Panics why
          | OutOfFuel => OutOfFuel
          end
      end
  end.

(** [encodeMessageValues]. *)
Definition encodeMessageValues (message : gmap string value)
    (types : list TypedDataType) : outcome (list byte * option error) :=
  encodeMessageLoop message types [].

(** ** The signing facade *)

Record Wallet : Type := mkWallet { Address : string; PrivateKey : string }.

(** What the wallet uses of go-ethereum's [crypto] package.  A key is held
    through a pointer, [None] being the nil pointer; [crypto.Sign] receives
    that pointer. *)
Class Crypto : Type := {
  ecdsaKey : Type;
  HexToECDSA : string → ecdsaKey + error;
  Keccak256 : list byte → list byte;
  crypto_Sign : list byte → option ecdsaKey → outcome (list byte * option error)
}.

(** [signature[64] += 27], which panics on a shorter slice. *)
Definition bumpRecoveryId (signature : list byte) : option (list byte) :=
  match signature !! 64 with
  | Some v => Some (<[64 := byte_of_N (N_of_byte v + 27)]> signature)
  | None => None
  end.

(** [%d] of a length. *)
Definition decimal (n : nat) : string := NilEmpty.string_of_uint (Nat.to_uint n).

(** The prefix of [eth_sign]: byte 0x19, the text, a line feed. *)
Definition ethereumPrefix : string :=
  String (ascii_of_N 25) "Ethereum Signed Message:" +:+ String (ascii_of_N 10) "".

(** The prefix of EIP-712: bytes 0x19 0x01. *)
Definition typedDataPrefix : list byte := [byte_of_N 25; byte_of_N 1].

Section Signing.
Context `{Crypto}.
Variable rangeOrder : list string → list string.

(** [Sign]. *)
Definition Sign (w : Wallet) (data : list byte) : outcome (list byte * option error) :=
  match HexToECDSA (PrivateKey w) with
  | inr err => Returns ([], Some (ErrInvalidPrivateKey err))
  | inl privateKey =>
      let msg := bytes_of_string (ethereumPrefix +:+ decimal (length data)) ++ data in
      let hash := Keccak256 msg in
      match crypto_Sign hash (Some privateKey) with
      | Returns (_, Some err) => Returns ([], Some (ErrFailedToSignMessage err))
      | Returns (signature, None) =>
          match bumpRecoveryId signature with
          | Some signature' => Returns (signature', None)
          | None => Panics "index out of range"
          end
      | Panics why => Panics why
      | OutOfFuel => OutOfFuel
      end
  end.

(** The bytes [PersonalSign] signs: the decoded hex when the message starts
    with [0x] and decodes, the bytes of the message itself otherwise. *)
Definition personalSignData (message : string) : list byte :=
  if GoStrings.HasPrefix message "0x" then
    match GoHex.DecodeString (GoStrings.TrimPrefix message "0x") with
    | (_, Some _) => bytes_of_string message
    | (data, None) => data
    end
  else bytes_of_string message.

(** The end of [PersonalSign], from the result of [Sign] on. *)
Definition finishPersonalSign (r : outcome (list byte * option error))
    : outcome (string * option error) :=
  match r with
  | Returns (_, Some err) => Returns ("", Some err)
  | Returns (signature, None) => Returns (hexutil_Encode signature, None)
  | Panics why => Panics why
  | OutOfFuel => OutOfFuel
  end.

(** [PersonalSign]. *)
Definition PersonalSign (w : Wallet) (message : string) : outcome (string * option error) :=
  finishPersonalSign (Sign w (personalSignData message)).

(** The end of [TypedDataSign], from the result of [crypto.Sign] on. *)
Definition finishTypedDataSign (r : outcome (list byte * option error))
    : outcome (string * option error) :=
  match r with
  | Returns (_, Some err) => Returns ("", Some (ErrFailedToSignTypedData err))
  | Returns (signature, None) =>
      match bumpRecoveryId signature with
      | Some signature' => Returns (hexutil_Encode signature', None)
      | None => Panics "index out of range"
      end
  | Panics why => Panics why
  | OutOfFuel => OutOfFuel
  end.

(** The digest [TypedDataSign] signs, from the two type signatures and the
    two value encodings. *)
Definition typedDataDigest (domainType primaryType : string)
    (domainValues messageValues : list byte) : list byte :=
  let domainHash := Keccak256 (bytes_of_string domainType) in
  let typeHash := Keccak256 (bytes_of_string primaryType) in
  let domainSeparator := Keccak256 (domainHash ++ domainValues) in
  let messageHash := Keccak256 (typeHash ++ messageValues) in
  Keccak256 (typedDataPrefix ++ domainSeparator ++ messageHash).

(** [TypedDataSign].  The error of [HexToECDSA] is tested and dropped by the
    empty [if err != nil { }]: [privateKey] stays the nil pointer and the
    function goes on. *)
Definition TypedDataSign (w : Wallet) (data : TypedData) : outcome (string * option error) :=
  let privateKey := match HexToECDSA (PrivateKey w) with
                    | inl k => Some k
                    | inr _ => None
                    end in
  match encodeType rangeOrder "EIP712Domain" (Types data),
        encodeType rangeOrder (PrimaryType data) (Types data) with
  | Some domainType, Some primaryType =>
      match encodeDomainValues (Domain data) with
      | (_, Some err) => Returns ("", Some err)
      | (domainValues, None) =>
          match encodeMessageValues (Message data)
                  (default [] (Types data !! PrimaryType data)) with
          | Returns (_, Some err) => Returns ("", Some err)
          | Returns (messageValues, None) =>
              let hash := typedDataDigest domainType primaryType
                            domainValues messageValues in
              finishTypedDataSign (crypto_Sign hash privateKey)
          | Panics why => Panics why
          | OutOfFuel => OutOfFuel
          end
      end
  | _, _ => OutOfFuel
  end.

End Signing.

(** A stand-in for the [crypto] package, to run the model on examples: a key
    is 32 bytes of hex, hashing is the identity, signing a digest yields 65
    zero bytes, and signing through the nil pointer panics as the library
    does when it reads the key's fields. *)
#[local] Instance toyCrypto : Crypto := {|
  ecdsaKey := list byte;
  HexToECDSA s :=
    match GoHex.DecodeString s with
    | (_, Some err) => inr (ErrHex err)
    | (k, None) =>
        if decide (length k = 32) then inl k
        else inr (ErrLibrary "invalid length, need 256 bits")
    end;
  Keccak256 bs := bs;
  crypto_Sign digest key :=
    match key with
    | None => Panics "invalid memory address or nil pointer dereference"
    | Some _ => Returns (replicate 65 Byte.x00, None)
    end
|}.

Definition badKeyWallet : Wallet := mkWallet "0x00" "not-hex".

Definition emptyDomain : TypedDataDomain.t := TypedDataDomain.mk "" "" None "" "".

Definition emptyTypedData : TypedData := mkTypedData ∅ "Mail" emptyDomain ∅.

(** ** The pairing URI *)

Definition defaultBridge : string := "wss://bridge.walletconnect.org".

(** The loop over the [&]-separated parameters filling the [query] map. *)
Fixpoint parseQuery (params : list string) (query : gmap string string)
    : gmap string string :=
  match params with
  | [] => query
  | param :: rest =>
      if decide (param = "") then parseQuery rest query
      else
        match GoStrings.SplitN param "=" 2 with
        | [k; v] => parseQuery rest (<[k := v]> query)
        | k :: _ => parseQuery rest (<[k := ""]> query)
        | [] => parseQuery rest query
        end
  end.

(** [ParseWalletConnectURI]: [(bridge, handshakeTopic, key)] or an error. *)
Definition ParseWalletConnectURI (uri : string)
    : (string * string * string) + error :=
  let uri := GoStrings.TrimPrefix uri "wc:" in
  match GoStrings.SplitN uri "?" 2 with
  | [base; queryPart] =>
      match GoStrings.Split base "@" with
      | [handshakeTopic; key] =>
          let query := parseQuery (GoStrings.Split queryPart "&") ∅ in
          let bridge := default "" (query !! "bridge") in
          let bridge := if decide (bridge = "") then defaultBridge else bridge in
          inl (bridge, handshakeTopic, key)
      | _ => inr ErrURIMissingVersion
      end
  | _ => inr ErrURIMissingQuery
  end.

(** ** The relay client *)

(** [json.RawMessage]: an undecoded JSON text. *)
Abbreviation RawMessage := string.

Module PeerMeta.
Record t : Type := mk {
  Description : string;
  URL : string;
  Icons : list string;
  Name : string
}.
Definition zero : t := mk "" "" [] "".
End PeerMeta.

Module SessionRequest.
Record t : Type := mk {
  PeerId : string;
  PeerMeta : PeerMeta.t;
  ChainId : Z
}.
End SessionRequest.

(** What one [conn.ReadJSON(&msg)] yields: a failure of the read, or the
    [type] and [payload] members of the frame. *)
Inductive frame : Type :=
| ReadFails (err : error)
| Frame (type : string) (payload : RawMessage).

(** [WalletClient].  The connection is the sequence of frames the relay will
    deliver on it; a read on the empty sequence does not return. *)
Record WalletClient : Type := mkClient {
  bridge : string;
  key : string;
  clientId : string;
  peerMeta : PeerMeta.t;
  conn : list frame;
  handshakeTopic : string;
  connected : bool
}.

Definition withConn (c : WalletClient) (frames : list frame) : WalletClient :=
  mkClient (bridge c) (key c) (clientId c) (peerMeta c) frames
    (handshakeTopic c) (connected c).

Definition withPeerMeta (c : WalletClient) (m : PeerMeta.t) : WalletClient :=
  mkClient (bridge c) (key c) (clientId c) m (conn c)
    (handshakeTopic c) (connected c).

(** What a call that reads from the connection does. *)
Inductive received (A : Type) : Type :=
| Returned (a : A) (c : WalletClient)   (* returns [a], leaving the client [c] *)
| Blocked.                              (* still waiting in [ReadJSON] *)
Arguments Returned {A} a c.
Arguments Blocked {A}.

Section Session.

(** [json.Unmarshal(msg.Payload, &request)]. *)
Variable unmarshalSessionRequest : RawMessage → SessionRequest.t + error.

(** [HandleSessionRequest]: the request pointer ([None] for nil) and the
    error. *)
Definition HandleSessionRequest (c : WalletClient)
    : received (option SessionRequest.t * option error) :=
  match conn c with
  | [] => Blocked
  | ReadFails err :: rest =>
      Returned (None, Some (ErrFailedToReadMessage err)) (withConn c rest)
  | Frame type payload :: rest =>
      if decide (type ≠ "pub") then Returned (None, None) (withConn c rest)
      else
        match unmarshalSessionRequest payload with
        | inr err =>
            Returned (None, Some (ErrFailedToParseSessionRequest err)) (withConn c rest)
        | inl request =>
            Returned (Some request, None)
              (withPeerMeta (withConn c rest) (SessionRequest.PeerMeta request))
        end
  end.

End Session.

(** [RequestHandlers]: three callbacks, each possibly nil.  A callback acts
    on the state [S] of whatever it closes over.  The fields [Sign] and
    [PersonalSign] carry an underscore to keep them apart from the wallet's
    methods of the same names. *)
Record RequestHandlers (S : Type) : Type := mkHandlers {
  SendTransaction : option (RawMessage → S → S);
  Sign_ : option (RawMessage → S → S);
  PersonalSign_ : option (RawMessage → S → S)
}.
Arguments mkHandlers {S}.
Arguments SendTransaction {S}.
Arguments Sign_ {S}.
Arguments PersonalSign_ {S}.

(** One callback invocation, as the dispatch loop makes it. *)
Record call : Type := mkCall { method : string; argument : RawMessage }.

Section Dispatch.
Context {S : Type}.

(** The [switch msg.Type] of [HandleRequests]: the callback the frame is
    routed to, if any. *)
Definition route (handlers : RequestHandlers S) (type : string)
    : option (RawMessage → S → S) :=
  if decide (type = "eth_sendTransaction") then SendTransaction handlers
  else if decide (type = "eth_sign") then Sign_ handlers
  else if decide (type = "personal_sign") then PersonalSign_ handlers
  else None.

(** How a run of [HandleRequests] ends. *)
Inductive loopEnd : Type :=
| Cancelled                 (* [ctx.Done()] was ready: returns nil *)
| ReadFailed (err : error)  (* returns the wrapped read error *)
| Waiting.                  (* blocked in [ReadJSON]: no frame left *)

(** [HandleRequests].  [done i] tells whether [ctx.Done()] is ready when the
    loop tests it for the [i]-th time.  The result is how the loop ends, the
    state the callbacks leave, and the calls made, in order. *)
Fixpoint HandleRequests (done : nat → bool) (handlers : RequestHandlers S)
    (i : nat) (frames : list frame) (s : S) : loopEnd * S * list call :=
  if done i then (Cancelled, s, [])
  else
    match frames with
    | [] => (Waiting, s, [])
    | ReadFails err :: _ => (ReadFailed (ErrFailedToReadMessage err), s, [])
    | Frame type payload :: rest =>
        match route handlers type with
        | Some handler =>
            let '(e, s', calls) :=
              HandleRequests done handlers (Datatypes.S i) rest (handler payload s) in
            (e, s', mkCall type payload :: calls)
        | None => HandleRequests done handlers (Datatypes.S i) rest s
        end
    end.

End Dispatch.

Definition sampleRequest : SessionRequest.t :=
  SessionRequest.mk "test-peer"
    (PeerMeta.mk "Test dApp" "https://test.com" ["https://test.com/icon.png"] "Test") 1.

Definition freshClient (frames : list frame) : WalletClient :=
  mkClient "ws://relay" "test-key" "test-client" PeerMeta.zero frames "" true.

(** Callbacks that record their payload in a log. *)
Definition loggingHandlers : RequestHandlers (list string) :=
  mkHandlers (Some (fun p log => log ++ ["tx:" +:+ p]))
             (Some (fun p log => log ++ ["sign:" +:+ p]))
             None.


(** A pairing identifier is malformed when, the leading [wc:] dropped, it has
    no [?], or the part before its first [?] does not hold exactly one [@]. *)
Definition malformedURI (uri : string) : Prop :=
  match GoStrings.cut "?" (GoStrings.TrimPrefix uri "wc:") with
  | None => True
  | Some (base, _) => GoStrings.Count "@" base ≠ 1
  end.

Definition goodKeyWallet : Wallet :=
  mkWallet "0x00" "0101010101010101010101010101010101010101010101010101010101010101".


(** ** Fields against a message *)


(** The bytes of an outcome that returns. *)
Definition returnedBytes (o : outcome (list byte * option error)) : list byte :=
  match o with
  | Returns (bs, _) => bs
  | _ => []
  end.

(** The panic of reading through a nil pointer. *)
Definition nilDereference : string :=
  "invalid memory address or nil pointer dereference".

(** ** References between types *)

(** [refersTo types a b]: the type [a] declares a field whose type [b] is a
    key of [types]. *)
Definition refersTo (types : TypeSet) (a b : string) : Prop :=
  ∃ fields f, types !! a = Some fields ∧ f ∈ fields ∧ Type_ f = b
              ∧ is_Some (types !! b).

(** [reachable types a b]: [b] is reached from [a] by one or more
    references. *)
Definition reachable (types : TypeSet) : string → string → Prop :=
  tc (refersTo types).

(** The type's own signature, as [encodeTypeWithContext] builds it. *)
Definition ownSignature (typeName : string) (types : TypeSet) : string :=
  typeName +:+ "(" +:+ encodeFields 0 (default [] (types !! typeName)) +:+ ")".

(** The set [findTypeDependencies] marks for [typeName], before it is copied
    to a slice. *)
Definition dependencySet (types : TypeSet) (typeName : string) : gset string :=
  default ∅ (depsLoop (S (size types)) types 0 ∅ [typeName]).

(** A type whose fields name two types without fields, the later one in the
    alphabet first. *)
Definition forkEntries : list (string * list TypedDataType) :=
  [("A", [mkField "c" "C"; mkField "b" "B"]); ("B", []); ("C", [])].

(** What the loops of [findTypeDependencies] maintain when they start from
    [typeName] and stand at index [i] of the queue: the marked types are the
    queue after its head, each is reachable from [typeName], and every type
    referred to by a queue entry before [i] is marked. *)
Definition bfsInv (types : TypeSet) (typeName : string) (i : nat)
    (deps : gset string) (queue : list string) : Prop :=
  (∃ q, queue = typeName :: q ∧ ∀ x, x ∈ deps ↔ x ∈ q)
  ∧ (∀ x, x ∈ deps → reachable types typeName x)
  ∧ (∀ j a b, j < i → queue !! j = Some a → refersTo types a b → b ∈ deps).

(** A type that refers to itself only. *)
Definition tsSelf : TypeSet :=
  <["Node" := [mkField "next" "Node"; mkField "value" "uint256"]]> ∅.


(** ** Shapes of values *)

(** The dynamic type [encodeValue] asks of a value under a declared type. *)
Definition valueFits (v : value) (typ : string) : Prop :=
  (typ = "string" ∧ ∃ s, v = VString s)
  ∨ (typ = "uint256" ∧ ∃ n, v = VBigInt n)
  ∨ (typ = "address" ∧ ∃ s, v = VString s).

(** The declared types [encodeValue] knows. *)
Definition supportedType (typ : string) : Prop :=
  typ = "string" ∨ typ = "uint256" ∨ typ = "address".


(** ** What the dispatch loop does with one frame *)

(** The call a frame gives rise to: none for a failed read and for a method
    without a callback. *)
Definition routedCall {S : Type} (handlers : RequestHandlers S) (fr : frame)
    : option call :=
  match fr with
  | Frame type payload =>
      match route handlers type with
      | Some _ => Some (mkCall type payload)
      | None => None
      end
  | ReadFails _ => None
  end.

(** The state after a frame has been delivered. *)
Definition deliver {S : Type} (handlers : RequestHandlers S) (s : S) (fr : frame)
    : S :=
  match fr with
  | Frame type payload =>
      match route handlers type with
      | Some handler => handler payload s
      | None => s
      end
  | ReadFails _ => s
  end.

(** Why the loop stopped after [k] frames, given how it ended. *)
Definition stoppedBecause (done : nat → bool) (i k : nat) (frames : list frame)
    (e : loopEnd) : Prop :=
  match e with
  | Cancelled => done (i + k) = true
  | ReadFailed err' =>
      done (i + k) = false
      ∧ ∃ err, frames !! k = Some (ReadFails err)
               ∧ err' = ErrFailedToReadMessage err
  | Waiting => done (i + k) = false ∧ k = length frames
  end.

(** ** Outgoing envelopes and the pairing flow *)

(** [strings.ToLower] on ASCII text: the bytes [A]-[Z] are lowered, every
    other byte is kept.  On text with non-ASCII letters Go lowers those too;
    no such text lowers to ["y"], the one value the result is compared
    with. *)
Definition toLowerByte (c : ascii) : ascii :=
  let n := N_of_ascii c in
  if (65 <=? n)%N && (n <=? 90)%N then ascii_of_N (n + 32) else c.

Fixpoint ToLower (s : string) : string :=
  match s with
  | EmptyString => EmptyString
  | String c rest => String (toLowerByte c) (ToLower rest)
  end.

(** The payload map that [ApproveSession] builds. *)
Record ApprovalPayload : Type := mkApproval {
  approved : bool;
  chainId : Z;
  accounts : list string;
  peerId : string;
  metaName : string;
  metaDescription : string;
  metaIcons : list string
}.

(** A JSON value written to the connection: the [topic] and [type] members
    and, for an approval, the [payload]. *)
Record envelope : Type := mkEnvelope {
  envTopic : string;
  envType : string;
  envPayload : option ApprovalPayload
}.

(** Errors of the pairing flow: the [fmt.Errorf] wrappers of [ConnectToURI]
    and [WalletConnect], and an error passed up as it is. *)
Inductive flowError : Type :=
| FailedToParseURI (cause : error)          (* "failed to parse URI: %v" *)
| FailedToConnectToBridge (cause : error)   (* "failed to connect to bridge: %v" *)
| FailedToSubscribe (cause : error)         (* "failed to subscribe: %v" *)
| FailedToConnect (cause : flowError)       (* "failed to connect: %v" *)
| FailedToHandleSessionRequest (cause : error)
                            (* "failed to handle session request: %v" *)
| ConnectionRejectedByUser                  (* "connection rejected by user" *)
| FailedToApproveSession (cause : error)    (* "failed to approve session: %v" *)
| Unwrapped (cause : error).

Definition withConnected (c : WalletClient) (b : bool) : WalletClient :=
  mkClient (bridge c) (key c) (clientId c) (peerMeta c) (conn c)
    (handshakeTopic c) b.

(** A client together with what has been written to its connection. *)
Record link : Type := mkLink { client : WalletClient; sent : list envelope }.

(** What the flow depends on outside the program: the dialer, the writes on
    the connection (the [n]-th write fails with [writes n], if at all), the
    JSON decoder of the session request, the checksummed text of an address
    ([Address.Hex]) and the line the user types at the prompt. *)
Record Env : Type := mkEnv {
  dial : string → list frame + error;
  writes : nat → option error;
  unmarshalRequest : RawMessage → SessionRequest.t + error;
  AddressHex : list byte → string;
  response : string
}.

(** How a run of [WalletConnect] ends. *)
Inductive flowEnd : Type :=
| FlowReturns (err : option flowError)
| FlowPanics (why : string)
| FlowBlocked.

Section Flow.
Variable env : Env.

(** [conn.WriteJSON(msg)]. *)
Definition WriteJSON (l : link) (msg : envelope) : option error * link :=
  match writes env (length (sent l)) with
  | Some err => (Some err, l)
  | None => (None, mkLink (client l) (sent l ++ [msg]))
  end.

(** [subscribe]. *)
Definition subscribe (l : link) (topic : string) : option error * link :=
  WriteJSON l (mkEnvelope topic "sub" None).

(** [ConnectToURI]: the client pointer ([None] for nil) and the error.  The
    wallet address is not used.  The client starts from the zero value of
    its struct: no client id, no peer metadata. *)
Definition ConnectToURI (uri : string) (walletAddress : list byte)
    : option link * option flowError :=
  match ParseWalletConnectURI uri with
  | inr err => (None, Some (FailedToParseURI err))
  | inl (bridge0, topic, key0) =>
      let c := mkClient bridge0 key0 "" PeerMeta.zero [] topic false in
      match dial env bridge0 with
      | inr err => (None, Some (FailedToConnectToBridge err))
      | inl frames =>
          let c := withConn c frames in
          match subscribe (mkLink c []) topic with
          | (Some err, _) => (None, Some (FailedToSubscribe err))
          | (None, l) =>
              (Some (mkLink (withConnected (client l) true) (sent l)), None)
          end
      end
  end.

(** [ApproveSession]. *)
Definition ApproveSession (l : link) (address : list byte) (chain : Z)
    : option error * link :=
  let payload :=
    mkApproval true chain [AddressHex env address] (clientId (client l))
      "omonOmon Wallet" "Go Console-based Wallet Implementation" [] in
  WriteJSON l (mkEnvelope (handshakeTopic (client l)) "pub" (Some payload)).

Context {S : Type}.

(** The three callbacks [WalletConnect] registers, as what they do to the
    world around the client (their printing, signing and sending). *)
Variable onSendTransaction onSign onPersonalSign : RawMessage → S → S.

(** [WalletConnect].  The result is how the run ends, the envelopes written,
    the state the callbacks leave and the calls made.  The context is
    [context.Background()], which is never done.  What the function prints
    and the deferred [Close], which do not bear on what is returned or
    written, are left out. *)
Definition WalletConnect (w : Wallet) (uri : string) (s : S)
    : flowEnd * list envelope * S * list call :=
  let address := HexToAddress (Address w) in
  match ConnectToURI uri address with
  | (_, Some err) => (FlowReturns (Some (FailedToConnect err)), [], s, [])
  | (None, None) => (FlowPanics "nil pointer dereference", [], s, [])
  | (Some l, None) =>
      match HandleSessionRequest (unmarshalRequest env) (client l) with
      | Blocked => (FlowBlocked, sent l, s, [])
      | Returned (_, Some err) _ =>
          (FlowReturns (Some (FailedToHandleSessionRequest err)), sent l, s, [])
      | Returned (None, None) _ =>
          (* [request.PeerMeta.Name] through the nil request *)
          (FlowPanics "nil pointer dereference", sent l, s, [])
      | Returned (Some request, None) c =>
          if decide (ToLower (response env) ≠ "y") then
            (FlowReturns (Some ConnectionRejectedByUser), sent l, s, [])
          else
            match ApproveSession (mkLink c (sent l)) address
                    (SessionRequest.ChainId request) with
            | (Some err, _) =>
                (FlowReturns (Some (FailedToApproveSession err)), sent l, s, [])
            | (None, l') =>
                let handlers :=
                  mkHandlers (Some onSendTransaction) (Some onSign)
                    (Some onPersonalSign) in
                let '(e, s', calls) :=
                  HandleRequests (fun _ => false) handlers 0 (conn (client l')) s in
                (match e with
                 | Cancelled => FlowReturns None
                 | ReadFailed err => FlowReturns (Some (Unwrapped err))
                 | Waiting => FlowBlocked
                 end, sent l', s', calls)
            end
      end
  end.

End Flow.

(** A sample environment: the relay delivers [frames], writes succeed, every
    payload decodes to the sample request, and the user types [answer]. *)
Definition sampleEnv (frames : list frame) (answer : string) : Env :=
  mkEnv (fun _ => inl frames) (fun _ => None) (fun _ => inl sampleRequest)
    (fun _ => "0xAddress") answer.

Definition sampleWallet : Wallet :=
  mkWallet "0x742d35Cc6634C0532925a3b844Bc454e4438f44e" "".

(** ** Wallet files *)

(** A run that may end the process through [log.Fatal]. *)
Inductive orFatal (A : Type) : Type :=
| Done (a : A)
| Fatal (err : error).
Arguments Done {A} a.
Arguments Fatal {A} err.

(** The file system: the content of each file that exists.  [denied path]
    is the error [os.WriteFile] gives for a path it cannot write. *)
Abbreviation Files := (gmap string (list byte)).

Section WalletFiles.
Context `{Crypto}.

(** [crypto.PubkeyToAddress(key.PublicKey).Hex()]. *)
Variable addressOf : ecdsaKey → string.
Variable denied : string → option error.

(** [os.ReadFile]. *)
Definition ReadFile (fs : Files) (path : string) : list byte + error :=
  match fs !! path with
  | Some content => inl content
  | None => inr (ErrLibrary "no such file or directory")
  end.

(** [os.WriteFile]: the file is created or replaced. *)
Definition WriteFile (fs : Files) (path : string) (content : list byte)
    : option error * Files :=
  match denied path with
  | Some err => (Some err, fs)
  | None => (None, <[path := content]> fs)
  end.

(** [Save]: the private key, as it is, becomes the content of the file. *)
Definition Save (w : Wallet) (path : string) (fs : Files) : option error * Files :=
  WriteFile fs path (bytes_of_string (PrivateKey w)).

(** [LoadWallet]. *)
Definition LoadWallet (path : string) (fs : Files) : orFatal Wallet :=
  match ReadFile fs path with
  | inr err => Fatal err
  | inl privateKeyHex =>
      match HexToECDSA (String.string_of_list_byte privateKeyHex) with
      | inr err => Fatal err
      | inl privateKey =>
          Done (mkWallet (addressOf privateKey)
                  (String.string_of_list_byte privateKeyHex))
      end
  end.

End WalletFiles.

(** ** Transactions asked for by the application *)

(** [TransactionRequest]: the members of the JSON request, as text. *)
Module TransactionRequest.
Record t : Type := mk {
  From : string;
  To : string;
  Data : string;
  Value : string;
  GasPrice : string;
  GasLimit : string;
  Nonce : string
}.
End TransactionRequest.

Definition CHAIN_ID : Z := 210425.

(** The arguments of [types.NewTransaction]. *)
Record Transaction : Type := mkTransaction {
  txNonce : N;
  txTo : list byte;
  txValue : Z;
  txGasLimit : N;
  txGasPrice : Z;
  txData : list byte
}.

(** The calls made to the RPC endpoint, in order. *)
Inductive rpc : Type :=
| RpcDial
| RpcPendingNonceAt (address : string)
| RpcSuggestGasPrice
| RpcSendTransaction (tx : Transaction) (chain : Z).

(** Errors of [SendTransactionFromRequest]. *)
Inductive txError : Type :=
| TxUnwrapped (cause : error)
| TxFromAddressMismatch                       (* "from address mismatch" *)
| TxFailedToGetNonce (cause : error)          (* "failed to get nonce: %v" *)
| TxFailedToSuggestGasPrice (cause : error)   (* "failed to suggest gas price: %v" *)
| TxInvalidData (cause : error)               (* "invalid data: %v" *)
| TxFailedToSign (cause : error)              (* "failed to sign transaction: %v" *)
| TxFailedToSend (cause : error).             (* "failed to send transaction: %v" *)

(** What the function uses of the endpoint and of the libraries: the result
    of dialing, of the two queries and of the broadcast; the checksummed
    text of the key's address; [strings.EqualFold]; [hexutil.DecodeUint64],
    whose [Must] form panics where this one fails; what
    [big.Int.SetString(s, 16)] leaves in its receiver; signing for a chain;
    and the text of the signed transaction's hash. *)
Class Ethereum `{Crypto} : Type := {
  ethDial : option error;
  pendingNonceAt : string → N + error;
  suggestGasPrice : Z + error;
  sendTransaction : Transaction → option error;
  keyAddressHex : ecdsaKey → string;
  EqualFold : string → string → bool;
  DecodeUint64 : string → option N;
  bigFromHex : string → Z;
  signTx : Transaction → Z → ecdsaKey → option error;
  txHashHex : Transaction → Z → ecdsaKey → string
}.

Section SendTransaction.
Context `{Ethereum}.

(** [SendTransactionFromRequest]: what it returns or that it panics, and
    the calls it made to the endpoint. *)
Definition SendTransactionFromRequest (w : Wallet) (req : TransactionRequest.t)
    : outcome (string * option txError) * list rpc :=
  match ethDial with
  | Some err => (Returns ("", Some (TxUnwrapped err)), [RpcDial])
  | None =>
  match HexToECDSA (PrivateKey w) with
  | inr err => (Returns ("", Some (TxUnwrapped (ErrInvalidPrivateKey err))), [RpcDial])
  | inl privateKey =>
  let fromAddress := keyAddressHex privateKey in
  if negb (EqualFold (TransactionRequest.From req) fromAddress) then
    (Returns ("", Some TxFromAddressMismatch), [RpcDial])
  else
  let to := HexToAddress (TransactionRequest.To req) in
  let value := if decide (TransactionRequest.Value req ≠ "")
               then bigFromHex (GoStrings.TrimPrefix (TransactionRequest.Value req) "0x")
               else 0%Z in
  (* the nonce: from the request, or from the endpoint *)
  let nonceStep : outcome (N * option txError) * list rpc :=
    if decide (TransactionRequest.Nonce req ≠ "") then
      match DecodeUint64 (TransactionRequest.Nonce req) with
      | Some n => (Returns (n, None), [])
      | None => (Panics "invalid hex string", [])
      end
    else
      match pendingNonceAt fromAddress with
      | inl n => (Returns (n, None), [RpcPendingNonceAt fromAddress])
      | inr err => (Returns (0%N, Some (TxFailedToGetNonce err)),
                    [RpcPendingNonceAt fromAddress])
      end in
  match nonceStep with
  | (Panics why, calls) => (Panics why, RpcDial :: calls)
  | (OutOfFuel, calls) => (OutOfFuel, RpcDial :: calls)
  | (Returns (_, Some err), calls) => (Returns ("", Some err), RpcDial :: calls)
  | (Returns (nonce, None), calls) =>
  let gasStep : option N :=
    if decide (TransactionRequest.GasLimit req ≠ "")
    then DecodeUint64 (TransactionRequest.GasLimit req)
    else Some 21000%N in
  match gasStep with
  | None => (Panics "invalid hex string", RpcDial :: calls)
  | Some gasLimit =>
  match suggestGasPrice with
  | inr err => (Returns ("", Some (TxFailedToSuggestGasPrice err)),
                RpcDial :: calls ++ [RpcSuggestGasPrice])
  | inl suggested =>
  let gasPrice := if decide (TransactionRequest.GasPrice req ≠ "")
                  then bigFromHex (GoStrings.TrimPrefix (TransactionRequest.GasPrice req) "0x")
                  else suggested in
  let dataStep : list byte * option GoHex.hexError :=
    if decide (TransactionRequest.Data req ≠ "")
    then GoHex.DecodeString (GoStrings.TrimPrefix (TransactionRequest.Data req) "0x")
    else ([], None) in
  match dataStep with
  | (_, Some err) => (Returns ("", Some (TxInvalidData (ErrHex err))),
                      RpcDial :: calls ++ [RpcSuggestGasPrice])
  | (data, None) =>
  let tx := mkTransaction nonce to value gasLimit gasPrice data in
  match signTx tx CHAIN_ID privateKey with
  | Some err => (Returns ("", Some (TxFailedToSign err)),
                 RpcDial :: calls ++ [RpcSuggestGasPrice])
  | None =>
  match sendTransaction tx with
  | Some err => (Returns ("", Some (TxFailedToSend err)),
                 RpcDial :: calls ++ [RpcSuggestGasPrice; RpcSendTransaction tx CHAIN_ID])
  | None => (Returns (txHashHex tx CHAIN_ID privateKey, None),
             RpcDial :: calls ++ [RpcSuggestGasPrice; RpcSendTransaction tx CHAIN_ID])
  end end end end end end end end.

End SendTransaction.

(** A stand-in for the endpoint, to run the model on examples: every call
    succeeds, the key's address is a fixed text, letter case is folded on
    ASCII, and the only quantity that decodes is [0x1]. *)
#[local] Instance toyEthereum : @Ethereum toyCrypto := {|
  ethDial := None;
  pendingNonceAt _ := inl 7%N;
  suggestGasPrice := inl 1%Z;
  sendTransaction _ := None;
  keyAddressHex _ := "0xAbC";
  EqualFold a b := String.eqb (ToLower a) (ToLower b);
  DecodeUint64 s := if decide (s = "0x1") then Some 1%N else None;
  bigFromHex _ := 0%Z;
  signTx _ _ _ := None;
  txHashHex _ _ _ := "0xhash"
|}.

Definition badNonceRequest : TransactionRequest.t :=
  TransactionRequest.mk "0xabc" "0x01" "" "" "" "" "12".
(** * Properties *)

(** ** Facts about the order of [sort.Strings] *)

Lemma sort_Strings_sorted (l : list string) : Sorted String.le (sort_Strings l).
Proof. apply (Sorted_merge_sort String.le). Qed.

Lemma sort_Strings_perm (l : list string) : sort_Strings l ≡ₚ l.
Proof. apply (merge_sort_Permutation String.le). Qed.

(** Sorting forgets the order in which the slice was filled. *)
Lemma sort_Strings_order_irrelevant (l1 l2 : list string) :
  l1 ≡ₚ l2 → sort_Strings l1 = sort_Strings l2.
Proof.
  intros Hp. apply (Sorted_unique String.le); try apply sort_Strings_sorted.
  by rewrite !sort_Strings_perm.
Qed.

(** ** Facts about [findTypeDependencies] *)

Section DepsFacts.
Variable types : TypeSet.

Lemma scanFields_inv fields deps queue :
  depsInv types deps queue →
  depsInv types (scanFields types fields deps queue).1
    (scanFields types fields deps queue).2.
Proof.
  revert deps queue; induction fields as [|f fs IH]; intros deps queue Hinv;
    simpl; [done|].
  destruct (types !! Type_ f) as [v|] eqn:Hlk; [|by apply IH].
  destruct (decide (Type_ f ∈ deps)) as [Hin|Hnin]; [by apply IH|].
  apply IH. destruct Hinv as [Hlen Hsub]. split.
  - rewrite length_app, Hlen, size_union, size_singleton by set_solver.
    simpl; lia.
  - apply union_subseteq; split; [|done].
    apply singleton_subseteq_l, elem_of_dom; eauto.
Qed.

Lemma depsLoop_total fuel i deps queue :
  depsInv types deps queue → S (size types) - i ≤ fuel →
  ∃ d, depsLoop fuel types i deps queue = Some d ∧ d ⊆ dom types.
Proof.
  revert i deps queue; induction fuel as [|fuel IH]; intros i deps queue Hinv Hfuel.
  - destruct (queue !! i) as [cur|] eqn:Hq; simpl; rewrite Hq.
    + exfalso. apply lookup_lt_Some in Hq. destruct Hinv as [Hlen Hsub].
      apply subseteq_size in Hsub. rewrite size_dom in Hsub. lia.
    + exists deps; split; [done|]. by destruct Hinv.
  - simpl. destruct (queue !! i) as [cur|] eqn:Hq.
    + pose proof (scanFields_inv (default [] (types !! cur)) deps queue Hinv) as Hinv'.
      destruct (scanFields types (default [] (types !! cur)) deps queue) as [deps' queue'].
      apply IH; [done|lia].
    + exists deps; split; [done|]. by destruct Hinv.
Qed.

Lemma depsLoop_start_total typeName :
  ∃ d, depsLoop (S (size types)) types 0 ∅ [typeName] = Some d ∧ d ⊆ dom types.
Proof.
  apply depsLoop_total; [|lia]. split; [by rewrite size_empty|set_solver].
Qed.

Lemma depsLoop_unknown_type typeName fuel :
  types !! typeName = None →
  depsLoop (S fuel) types 0 ∅ [typeName] = Some ∅.
Proof. intros Hlk. simpl. rewrite Hlk. simpl. by destruct fuel. Qed.

End DepsFacts.

(** ** Termination and determinism of [encodeTypeWithContext] *)

(** The loop over the dependencies returns the same list for every member of
    a family of recursive calls that agree on each dependency and hand the
    [processing] map back unchanged. *)
Lemma encodeDeps_family {I : Type} (Q : I → Prop)
    (rec : I → string → gset string → option (string * gset string))
    (typeName : string) (p : gset string) (deps : list string) :
  (∀ dep, ∃ s, ∀ i, Q i → rec i dep p = Some (s, p)) →
  ∀ encoded, ∃ enc, ∀ i, Q i →
    encodeDeps (rec i) typeName deps encoded p = Some (enc, p).
Proof.
  intros Hrec. induction deps as [|dep rest IH]; intros encoded.
  - by exists encoded.
  - destruct (decide (dep ≠ typeName)) as [Hne|Heq].
    + destruct (Hrec dep) as [s Hs].
      destruct (IH (if decide (s ≠ "") then encoded ++ [s] else encoded))
        as [enc Henc].
      exists enc. intros i Hi. simpl. rewrite decide_True by done.
      rewrite (Hs i Hi). simpl. by apply Henc.
    + destruct (IH encoded) as [enc Henc]. exists enc. intros i Hi.
      simpl. rewrite decide_False by done. by apply Henc.
Qed.

Lemma processing_restored (typeName : string) (p : gset string) :
  typeName ∉ p → ({[typeName]} ∪ p) ∖ {[typeName]} = p.
Proof. set_solver. Qed.

(** A type name that is no key of [types] has no fields and no
    dependencies. *)
Lemma encodeTypeWithContext_unknown (types : TypeSet) rangeOrder fuel
    (typeName : string) (p : gset string) :
  visitsEachOnce rangeOrder → types !! typeName = None → typeName ∉ p →
  encodeTypeWithContext rangeOrder (S fuel) typeName types p
    = Some (typeName +:+ "()", p).
Proof.
  intros HR Hlk Hnin. simpl. rewrite decide_False by done.
  unfold findTypeDependencies.
  rewrite (depsLoop_unknown_type types typeName (size types) Hlk). simpl.
  rewrite elements_empty.
  rewrite (proj1 (Permutation_nil_r _) (HR [])). simpl.
  by rewrite Hlk, processing_restored.
Qed.

(** With more fuel than there are keys of [types] outside [processing], the
    call returns; what it returns depends neither on the fuel nor on the
    order in which [range] visited the dependency map, and [processing] is
    handed back as it was received. *)
Lemma encodeTypeWithContext_total (types : TypeSet) (n : nat) :
  ∀ typeName p, size (dom types ∖ p) ≤ n →
  ∃ s, ∀ rangeOrder fuel, visitsEachOnce rangeOrder → n < fuel →
    encodeTypeWithContext rangeOrder fuel typeName types p = Some (s, p).
Proof.
  induction n as [n IH] using lt_wf_ind. intros t p Hsize.
  destruct (decide (t ∈ p)) as [Hin|Hnin].
  { exists "". intros R [|fuel] HR Hf; [lia|]. simpl. by rewrite decide_True. }
  destruct (types !! t) as [fields|] eqn:Hlk.
  - assert (t ∈ dom types) as Hdom by (apply elem_of_dom; eauto).
    assert (size (dom types ∖ p)
            = S (size (dom types ∖ ({[t]} ∪ p)))) as Hsz.
    { replace (dom types ∖ p) with ({[t]} ∪ dom types ∖ ({[t]} ∪ p)).
      - rewrite size_union, size_singleton by set_solver. done.
      - apply set_eq. intros x. rewrite elem_of_union, !elem_of_difference,
          elem_of_union, elem_of_singleton.
        destruct (decide (x = t)) as [->|]; naive_solver. }
    destruct n as [|n]; [lia|].
    destruct (depsLoop_start_total types t) as (d & Hd & _).
    destruct (encodeDeps_family
      (λ i : (list string → list string) * nat, visitsEachOnce i.1 ∧ n < i.2)
      (λ i dep q, encodeTypeWithContext i.1 i.2 dep types q)
      t ({[t]} ∪ p) (sort_Strings (elements d))) with (encoded := @nil string)
      as [enc Henc].
    { intros dep. destruct (IH n (Nat.lt_succ_diag_r n) dep ({[t]} ∪ p)) as [s Hs];
        [lia|].
      exists s. intros [R f] [HR Hf]. by apply Hs. }
    exists (GoStrings.Join (enc ++ [t +:+ "(" +:+ encodeFields 0 fields +:+ ")"])).
    intros R [|fuel] HR Hf; [lia|]. simpl. rewrite decide_False by done.
    unfold findTypeDependencies. rewrite Hd. simpl.
    rewrite (sort_Strings_order_irrelevant _ (elements d)) by apply HR.
    assert (visitsEachOnce (R, fuel).1 ∧ n < (R, fuel).2) as HQ
      by (simpl; split; [done|lia]).
    apply Henc in HQ. simpl in HQ. rewrite HQ. simpl.
    by rewrite Hlk, processing_restored.
  - exists (t +:+ "()").
    intros R [|fuel] HR Hf; [lia|]. by apply encodeTypeWithContext_unknown.
Qed.

Lemma encodeType_range_irrelevant (types : TypeSet) (typeName : string)
    (R1 R2 : list string → list string) :
  visitsEachOnce R1 → visitsEachOnce R2 →
  ∃ s, encodeType R1 typeName types = Some s
       ∧ encodeType R2 typeName types = Some s.
Proof.
  intros H1 H2.
  destruct (encodeTypeWithContext_total types (size types) typeName ∅) as [s Hs].
  { by rewrite difference_empty_L, size_dom. }
  exists s. unfold encodeType. rewrite !Hs by (done || lia). done.
Qed.

Lemma visitsEachOnce_id : visitsEachOnce id.
Proof. by intros l. Qed.

Lemma visitsEachOnce_reverse : visitsEachOnce reverse.
Proof. intros l. apply reverse_Permutation. Qed.

(** *** The cycle of two types *)

Example encodeType_cycle_A : encodeType id "A" tsAB = Some "B(A a)A(B b)".
Proof. reflexivity. Qed.

Example encodeType_cycle_B : encodeType reverse "B" tsAB = Some "A(B b)B(A a)".
Proof. reflexivity. Qed.

(** C3: for every type set, cyclic ones included, [encodeType] returns, and
    returns the same string on every call, whatever order [range] visits the
    dependency map in; and a call for a type that is already marked in
    [processing] returns the empty string at once, leaving [processing] as
    it is. *)
Theorem encodeType_terminates_deterministic (types : TypeSet)
    (typeName : string) (R1 R2 : list string → list string) :
  visitsEachOnce R1 → visitsEachOnce R2 →
  (∃ s, encodeType R1 typeName types = Some s
        ∧ encodeType R2 typeName types = Some s)
  ∧ (∀ fuel p, typeName ∈ p →
       encodeTypeWithContext R1 (S fuel) typeName types p = Some ("", p)).
Proof.
  intros H1 H2. split; [by apply encodeType_range_irrelevant|].
  intros fuel p Hin. simpl. by rewrite decide_True.
Qed.

Lemma encodeType_terminates_deterministic_witness :
  visitsEachOnce id ∧ visitsEachOnce reverse
  ∧ (∃ s, encodeType id "A" tsAB = Some s ∧ encodeType reverse "A" tsAB = Some s)
  ∧ (∀ fuel p, "A" ∈ p →
       encodeTypeWithContext id (S fuel) "A" tsAB p = Some ("", p)).
Proof.
  split; [exact visitsEachOnce_id|]. split; [exact visitsEachOnce_reverse|].
  exact (encodeType_terminates_deterministic tsAB "A" id reverse
           visitsEachOnce_id visitsEachOnce_reverse).
Defined.

Example acyclic_chain : acyclicb tsChain = true.
Proof. reflexivity. Qed.

Example cyclic_pair : acyclicb tsAB = false.
Proof. reflexivity. Qed.

(** C9: for a type name that is no key of the type set, [encodeType] does
    not fail: it returns the name followed by an empty parameter list. *)
Theorem encodeType_unknown_type (types : TypeSet) (typeName : string)
    (rangeOrder : list string → list string) :
  visitsEachOnce rangeOrder → types !! typeName = None →
  encodeType rangeOrder typeName types = Some (typeName +:+ "()").
Proof.
  intros HR Hlk. unfold encodeType.
  rewrite encodeTypeWithContext_unknown by (done || set_solver). done.
Qed.

Lemma encodeType_unknown_type_witness :
  visitsEachOnce reverse ∧ tsChain !! "EIP712Domain" = None
  ∧ encodeType reverse "EIP712Domain" tsChain = Some "EIP712Domain()".
Proof.
  split; [exact visitsEachOnce_reverse|]. split; [reflexivity|].
  exact (encodeType_unknown_type tsChain "EIP712Domain" reverse
           visitsEachOnce_reverse eq_refl).
Defined.

(** C1: the type's own signature does not come first.  For a type [A] with
    one field of the custom type [B], [encodeType] returns the signature of
    [B] followed by the signature of [A]; EIP-712, which the package says it
    implements, asks for ["A(B b)B()"]. *)
Theorem encodeType_own_signature_last (rangeOrder : list string → list string) :
  visitsEachOnce rangeOrder →
  encodeType rangeOrder "A" tsDep = Some "B()A(B b)"
  ∧ encodeType rangeOrder "A" tsDep ≠ Some "A(B b)B()".
Proof.
  intros HR.
  destruct (encodeType_range_irrelevant tsDep "A" id rangeOrder
              visitsEachOnce_id HR) as (s & Hid & HR').
  rewrite HR', <- Hid. split; [reflexivity|discriminate].
Qed.

Lemma encodeType_own_signature_last_witness :
  visitsEachOnce reverse
  ∧ encodeType reverse "A" tsDep = Some "B()A(B b)"
  ∧ encodeType reverse "A" tsDep ≠ Some "A(B b)B()".
Proof.
  split; [exact visitsEachOnce_reverse|].
  exact (encodeType_own_signature_last reverse visitsEachOnce_reverse).
Defined.

(** A dependency of a dependency is emitted once per path that reaches it. *)
Example encodeType_chain :
  encodeType id "A" tsChain = Some "C()B(C c)C()A(B b,uint256 n)".
Proof. reflexivity. Qed.

(** ** [encodeMessageValues] *)

Lemma encodeValue_panics_iff (v : value) (typ : string) (why : string) :
  encodeValue v typ = Panics why ↔
  typ = "uint256" ∧ v = VBigIntNil ∧ why = nilDereference.
Proof.
  unfold encodeValue, nilDereference.
  destruct (decide (typ = "string")) as [->|Hs].
  { destruct v; split; try done; intros (? & ? & ?); done. }
  destruct (decide (typ = "uint256")) as [->|Hu].
  { destruct v; split; try done; try (intros (? & ? & ?); done).
    - intros [= <-]. done.
    - intros (_ & _ & ->). done. }
  destruct (decide (typ = "address")) as [->|Ha].
  { destruct v; split; try done; intros (? & ? & ?); done. }
  split; [done|]. intros (? & ? & ?); done.
Qed.

Lemma encodeValue_never_out_of_fuel (v : value) (typ : string) :
  encodeValue v typ ≠ OutOfFuel.
Proof.
  unfold encodeValue. repeat case_decide; by destruct v.
Qed.

Lemma encodeValue_error_no_bytes (v : value) (typ : string) (bs : list byte)
    (e : error) :
  encodeValue v typ = Returns (bs, Some e) → bs = [].
Proof.
  unfold encodeValue. repeat case_decide; destruct v; congruence.
Qed.


(** With a field somewhere in the list that has no value, or whose value
    meets an error, the loop does not return bytes: it returns an error, or
    panics on a nil [big.Int] pointer declared [uint256] ahead of that
    field. *)
Lemma encodeMessageLoop_fails_at (message : gmap string value)
    (pre : list TypedDataType) (f : TypedDataType) (post : list TypedDataType) :
  (∀ v, message !! Name f = Some v →
        ∃ bs e, encodeValue v (Type_ f) = Returns (bs, Some e)) →
  ∀ values,
    (∃ e, encodeMessageLoop message (pre ++ f :: post) values
          = Returns ([], Some e))
    ∨ (∃ g, g ∈ pre ∧ Type_ g = "uint256"
            ∧ message !! Name g = Some VBigIntNil
            ∧ encodeMessageLoop message (pre ++ f :: post) values
              = Panics nilDereference).
Proof.
  intros Hf. induction pre as [|g pre IH]; intros values; simpl.
  - destruct (message !! Name f) as [v|]; [|eauto].
    destruct (Hf v eq_refl) as (bs & e & ->). eauto.
  - destruct (message !! Name g) as [v|] eqn:Hv; [|eauto].
    destruct (encodeValue v (Type_ g)) as [[bs [e|]]|why|] eqn:Henc.
    + eauto.
    + destruct (IH (values ++ bs)) as [?|(h & Hh & ? & ? & ?)]; [by left|].
      right. exists h. split; [by right|done].
    + apply encodeValue_panics_iff in Henc as (Hty & -> & ->).
      right. exists g. split; [by left|done].
    + by apply encodeValue_never_out_of_fuel in Henc.
Qed.




(** The field [b] has no value and the field [a] before it does not encode:
    the error, or the panic, is the one of [a]. *)
Example encodeMessageValues_earlier_error :
  encodeMessageValues (<["a" := VString "x"]> ∅)
    [mkField "a" "uint256"; mkField "b" "string"]
  = Returns ([], Some ErrInvalidUint256Value).
Proof. reflexivity. Qed.

Example encodeMessageValues_earlier_panic :
  encodeMessageValues (<["a" := VBigIntNil]> ∅)
    [mkField "a" "uint256"; mkField "b" "string"]
  = Panics nilDereference.
Proof. reflexivity. Qed.


(** ** The signing facade *)

(** C2: when decoding the private key fails, [TypedDataSign] does not
    return that error.  Unless one of the value encoders fails first, it
    goes on to hash the message and hands the digest to [crypto.Sign]
    together with the nil key. *)
Theorem TypedDataSign_swallows_key_error `{Crypto}
    (rangeOrder : list string → list string) (w : Wallet) (data : TypedData)
    (err : error) (domainValues messageValues : list byte) :
  visitsEachOnce rangeOrder →
  HexToECDSA (PrivateKey w) = inr err →
  encodeDomainValues (Domain data) = (domainValues, None) →
  encodeMessageValues (Message data) (default [] (Types data !! PrimaryType data))
    = Returns (messageValues, None) →
  ∃ digest, TypedDataSign rangeOrder w data
            = finishTypedDataSign (crypto_Sign digest None).
Proof.
  intros HR Hkey Hdom Hmsg. unfold TypedDataSign.
  destruct (encodeType_range_irrelevant (Types data) "EIP712Domain"
              rangeOrder rangeOrder HR HR) as (domainType & -> & _).
  destruct (encodeType_range_irrelevant (Types data) (PrimaryType data)
              rangeOrder rangeOrder HR HR) as (primaryType & -> & _).
  rewrite Hkey, Hdom, Hmsg. eauto.
Qed.

Lemma TypedDataSign_swallows_key_error_witness :
  HexToECDSA (PrivateKey badKeyWallet)
    = inr (ErrHex (GoHex.InvalidByteError "n"))
  ∧ (∃ digest, TypedDataSign id badKeyWallet emptyTypedData
               = finishTypedDataSign (crypto_Sign digest None))
  ∧ TypedDataSign id badKeyWallet emptyTypedData
    = Panics "invalid memory address or nil pointer dereference".
Proof.
  split; [reflexivity|]. split; [|reflexivity].
  exact (TypedDataSign_swallows_key_error id badKeyWallet emptyTypedData
           (ErrHex (GoHex.InvalidByteError "n")) [] []
           visitsEachOnce_id eq_refl eq_refl eq_refl).
Defined.

(** The sibling [Sign] returns the same failure to its caller. *)
Example Sign_returns_key_error :
  Sign badKeyWallet []
  = Returns ([], Some (ErrInvalidPrivateKey (ErrHex (GoHex.InvalidByteError "n")))).
Proof. reflexivity. Qed.

(** *** [hex.DecodeString] fails exactly on ill-formed input *)

Lemma string_pair_ind (P : string → Prop) :
  P "" → (∀ c, P (String c "")) →
  (∀ c d s, P s → P (String c (String d s))) → ∀ s, P s.
Proof.
  intros H0 H1 H2 s.
  assert (P s ∧ ∀ c, P (String c s)) as [? _]; [|done].
  induction s as [|d s [IH1 IH2]]; split; auto.
Qed.

Lemma fromHexChar_isHexDigit (c : ascii) :
  GoHex.fromHexChar c = None ↔ isHexDigit c = false.
Proof.
  unfold GoHex.fromHexChar, isHexDigit. simpl.
  destruct ((48 <=? N_of_ascii c)%N && (N_of_ascii c <=? 57)%N);
  destruct ((97 <=? N_of_ascii c)%N && (N_of_ascii c <=? 102)%N);
  destruct ((65 <=? N_of_ascii c)%N && (N_of_ascii c <=? 70)%N);
    simpl; split; congruence.
Qed.

Lemma DecodeString_ok_iff (s : string) :
  (GoHex.DecodeString s).2 = None ↔ validHex s = true.
Proof.
  induction s as [|c|c d s IH] using string_pair_ind.
  - done.
  - unfold validHex. simpl. destruct (GoHex.fromHexChar c); simpl; split; done.
  - unfold validHex in *. cbn [GoHex.DecodeString].
    change (String.length (String c (String d s))) with (S (S (String.length s))).
    rewrite Nat.even_succ_succ. cbn [list_ascii_of_string forallb].
    pose proof (fromHexChar_isHexDigit c) as Hc.
    pose proof (fromHexChar_isHexDigit d) as Hd.
    destruct (GoHex.fromHexChar c) as [a|].
    + destruct (GoHex.fromHexChar d) as [b|].
      * destruct (isHexDigit c); [|by destruct Hc as [_ Hc]; discriminate Hc].
        destruct (isHexDigit d); [|by destruct Hd as [_ Hd]; discriminate Hd].
        destruct (GoHex.DecodeString s) as [bs e]. cbn [andb snd] in *.
        exact IH.
      * rewrite (proj1 Hd eq_refl). cbn [snd].
        rewrite !andb_false_r. split; done.
    + rewrite (proj1 Hc eq_refl). cbn [snd andb]. rewrite andb_false_r. split; done.
Qed.



Example PersonalSign_malformed_hex_signs :
  ∃ signature, PersonalSign goodKeyWallet "0xzz" = Returns (signature, None).
Proof. eexists. reflexivity. Qed.

(** ** The pairing URI *)

Lemma cut_None_Count (sep : ascii) (s : string) :
  GoStrings.cut sep s = None ↔ GoStrings.Count sep s = 0.
Proof.
  induction s as [|c s IH]; simpl; [done|].
  destruct (Ascii.eqb c sep); simpl; [split; discriminate|].
  destruct (GoStrings.cut sep s) as [[a b]|]; split; try done.
  - intros Hc. apply IH in Hc. discriminate.
  - intros _. by apply IH.
Qed.

Lemma cut_Some_Count (sep : ascii) (s a b : string) :
  GoStrings.cut sep s = Some (a, b) →
  GoStrings.Count sep s = S (GoStrings.Count sep b) ∧ s = a +:+ String sep b.
Proof.
  revert a; induction s as [|c s IH]; intros a; simpl; [done|].
  destruct (Ascii.eqb_spec c sep) as [->|Hne]; simpl.
  - intros [= <- <-]. done.
  - destruct (GoStrings.cut sep s) as [[a' b']|]; [|done].
    intros [= <- <-]. destruct (IH a' eq_refl) as [-> Hs]. split; [done|].
    by rewrite Hs at 1.
Qed.

Lemma genSplit_length (sep : ascii) (n : nat) :
  ∀ s, GoStrings.Count sep s = n → length (GoStrings.genSplit (S n) sep s) = S n.
Proof.
  induction n as [|n IH]; intros s Hn; [done|].
  change (GoStrings.genSplit (S (S n)) sep s)
    with (match GoStrings.cut sep s with
          | None => [s]
          | Some (a, rest) => a :: GoStrings.genSplit (S n) sep rest
          end).
  destruct (GoStrings.cut sep s) as [[a b]|] eqn:Hcut.
  - apply cut_Some_Count in Hcut as [Hc _]. simpl. f_equal. apply IH. lia.
  - apply cut_None_Count in Hcut. lia.
Qed.

Lemma Split_length (s : string) (sep : ascii) :
  length (GoStrings.Split s sep) = S (GoStrings.Count sep s).
Proof. by apply genSplit_length. Qed.

Lemma Split_one_separator (s : string) (sep : ascii) :
  GoStrings.Count sep s = 1 →
  ∃ a b, GoStrings.Split s sep = [a; b] ∧ s = a +:+ String sep b.
Proof.
  intros Hone. unfold GoStrings.Split. rewrite Hone.
  destruct (GoStrings.cut sep s) as [[a b]|] eqn:Hcut.
  - exists a, b. simpl. rewrite Hcut.
    by apply cut_Some_Count in Hcut as [_ Hs].
  - apply cut_None_Count in Hcut. lia.
Qed.

Lemma SplitN_two (s : string) (sep : ascii) :
  GoStrings.SplitN s sep 2
  = match GoStrings.cut sep s with
    | Some (a, rest) => [a; rest]
    | None => [s]
    end.
Proof.
  unfold GoStrings.SplitN. simpl. by destruct (GoStrings.cut sep s) as [[a b]|].
Qed.

(** C6, as the code has it: parsing fails, with one of the two invalid-format
    errors, exactly when the [?] is absent or the part before it does not
    hold exactly one [@]; every other identifier parses, an empty topic
    included. *)
Theorem ParseWalletConnectURI_fails_iff_malformed (uri : string) :
  (malformedURI uri →
     ∃ e, ParseWalletConnectURI uri = inr e ∧ isInvalidURIFormat e)
  ∧ (¬ malformedURI uri →
     ∃ bridge topic key query,
       ParseWalletConnectURI uri = inl (bridge, topic, key)
       ∧ GoStrings.TrimPrefix uri "wc:"
         = (topic +:+ String "@" key) +:+ String "?" query).
Proof.
  unfold malformedURI, ParseWalletConnectURI. rewrite SplitN_two.
  destruct (GoStrings.cut "?" (GoStrings.TrimPrefix uri "wc:"))
    as [[base queryPart]|] eqn:Hcut.
  - apply cut_Some_Count in Hcut as [_ Huri]. split.
    + intros Hbad. pose proof (Split_length base "@") as Hlen.
      destruct (GoStrings.Split base "@") as [|x [|y [|z l]]];
        simpl in Hlen; try (eexists; split; [reflexivity|by right]).
      exfalso. apply Hbad. lia.
    + intros Hgood. apply dec_stable in Hgood.
      destruct (Split_one_separator base "@" Hgood) as (topic & key & -> & Hbase).
      eexists _, topic, key, queryPart. split; [reflexivity|].
      by rewrite Huri, Hbase.
  - split; [|intros Hn; by destruct Hn].
    intros _. eexists. split; [reflexivity|by left].
Qed.

Lemma ParseWalletConnectURI_fails_iff_malformed_witness :
  (∃ e, ParseWalletConnectURI "invalid-uri" = inr e ∧ isInvalidURIFormat e)
  ∧ (∃ bridge topic key query,
       ParseWalletConnectURI "wc:t@1?bridge=" = inl (bridge, topic, key)
       ∧ GoStrings.TrimPrefix "wc:t@1?bridge=" "wc:"
         = (topic +:+ String "@" key) +:+ String "?" query).
Proof.
  split.
  - apply (proj1 (ParseWalletConnectURI_fails_iff_malformed "invalid-uri")).
    exact I.
  - apply (proj2 (ParseWalletConnectURI_fails_iff_malformed "wc:t@1?bridge=")).
    intros Hbad. apply Hbad. reflexivity.
Defined.

(** C6 as stated fails: an identifier with an empty topic parses, and so is
    not refused with an invalid-format error. *)
Lemma ParseWalletConnectURI_accepts_empty_topic :
  ParseWalletConnectURI "wc:@1?bridge=" = inl (defaultBridge, "", "1")
  ∧ ¬ ∃ e, ParseWalletConnectURI "wc:@1?bridge=" = inr e ∧ isInvalidURIFormat e.
Proof. split; [reflexivity|]. intros (e & He & _). discriminate He. Qed.

(** The identifiers of the package's own test table. *)
Example ParseWalletConnectURI_default_bridge :
  ParseWalletConnectURI
    "wc:8a5e5bdc-a0e4-4702-ba63-8f1a5655744f@1?bridge=&key=41791102999c339c844880b23950704cc43aa840f3739e365323cda4dfa89e7a"
  = inl ("wss://bridge.walletconnect.org",
         "8a5e5bdc-a0e4-4702-ba63-8f1a5655744f", "1").
Proof. reflexivity. Qed.

Example ParseWalletConnectURI_custom_bridge :
  ParseWalletConnectURI
    "wc:8a5e5bdc-a0e4-4702-ba63-8f1a5655744f@1?bridge=wss://custom.bridge.org&key=41791102999c339c844880b23950704cc43aa840f3739e365323cda4dfa89e7a"
  = inl ("wss://custom.bridge.org",
         "8a5e5bdc-a0e4-4702-ba63-8f1a5655744f", "1").
Proof. reflexivity. Qed.

Example ParseWalletConnectURI_no_query :
  ParseWalletConnectURI "invalid-uri" = inr ErrURIMissingQuery.
Proof. reflexivity. Qed.

Example ParseWalletConnectURI_two_versions :
  ParseWalletConnectURI "wc:a@b@1?x" = inr ErrURIMissingVersion.
Proof. reflexivity. Qed.

(** ** The relay client *)

(** C7, as the code has it: a first frame whose type is not [pub] is not an
    error, and [HandleSessionRequest] returns at once, with no request and
    no error, having consumed that frame and nothing else. *)
Theorem HandleSessionRequest_non_publish_returns
    (unmarshal : RawMessage → SessionRequest.t + error) (c : WalletClient)
    (type : string) (payload : RawMessage) (rest : list frame) :
  conn c = Frame type payload :: rest → type ≠ "pub" →
  HandleSessionRequest unmarshal c = Returned (None, None) (withConn c rest)
  ∧ peerMeta (withConn c rest) = peerMeta c.
Proof.
  intros Hconn Hne. unfold HandleSessionRequest. rewrite Hconn.
  by rewrite decide_True.
Qed.

Lemma HandleSessionRequest_non_publish_returns_witness :
  HandleSessionRequest (fun _ => inl sampleRequest)
    (freshClient [Frame "sub" "{}"; Frame "pub" "{}"])
  = Returned (None, None) (freshClient [Frame "pub" "{}"])
  ∧ peerMeta (freshClient [Frame "pub" "{}"]) = PeerMeta.zero.
Proof.
  exact (HandleSessionRequest_non_publish_returns (fun _ => inl sampleRequest)
           (freshClient [Frame "sub" "{}"; Frame "pub" "{}"])
           "sub" "{}" [Frame "pub" "{}"] eq_refl ltac:(discriminate)).
Defined.

(** C7 as stated fails: with a [sub] frame ahead of the pairing request the
    call does not go on to the request; it returns nil and leaves the
    request unread. *)
Lemma HandleSessionRequest_does_not_keep_waiting :
  HandleSessionRequest (fun _ => inl sampleRequest)
    (freshClient [Frame "sub" "{}"; Frame "pub" "{}"])
  = Returned (None, None) (freshClient [Frame "pub" "{}"])
  ∧ HandleSessionRequest (fun _ => inl sampleRequest)
      (freshClient [Frame "sub" "{}"; Frame "pub" "{}"])
    ≠ HandleSessionRequest (fun _ => inl sampleRequest)
        (freshClient [Frame "pub" "{}"]).
Proof. split; [reflexivity|discriminate]. Qed.

(** C8: in the dispatch loop a frame whose method has no callback invokes
    nothing and does not end the loop, which goes on with the frames after
    it as if it had started there; a following frame with a callback is
    routed to it. *)
Theorem HandleRequests_skips_unregistered {S : Type} (done : nat → bool)
    (handlers : RequestHandlers S) (i : nat) (type : string)
    (payload : RawMessage) (rest : list frame) (s : S) :
  done i = false → route handlers type = None →
  HandleRequests done handlers i (Frame type payload :: rest) s
    = HandleRequests done handlers (Datatypes.S i) rest s
  ∧ (∀ type' payload' rest' handler,
       rest = Frame type' payload' :: rest' →
       done (Datatypes.S i) = false →
       route handlers type' = Some handler →
       HandleRequests done handlers i (Frame type payload :: rest) s
       = let '(e, s', calls) :=
           HandleRequests done handlers (Datatypes.S (Datatypes.S i)) rest'
             (handler payload' s) in
         (e, s', mkCall type' payload' :: calls)).
Proof.
  intros Hdone Hroute.
  assert (HandleRequests done handlers i (Frame type payload :: rest) s
          = HandleRequests done handlers (Datatypes.S i) rest s) as Hskip.
  { simpl. by rewrite Hdone, Hroute. }
  split; [done|].
  intros type' payload' rest' handler -> Hdone' Hroute'.
  rewrite Hskip. simpl. by rewrite Hdone', Hroute'.
Qed.

Lemma HandleRequests_skips_unregistered_witness :
  route loggingHandlers "wallet_switchChain" = None
  ∧ HandleRequests (fun _ => false) loggingHandlers 0
      [Frame "wallet_switchChain" "p0"; Frame "eth_sign" "p1"] []
    = HandleRequests (fun _ => false) loggingHandlers 1 [Frame "eth_sign" "p1"] []
  ∧ HandleRequests (fun _ => false) loggingHandlers 0
      [Frame "wallet_switchChain" "p0"; Frame "eth_sign" "p1"] []
    = (Waiting, ["sign:p1"], [mkCall "eth_sign" "p1"]).
Proof.
  split; [reflexivity|].
  destruct (HandleRequests_skips_unregistered (fun _ => false) loggingHandlers 0
              "wallet_switchChain" "p0" [Frame "eth_sign" "p1"] []
              eq_refl eq_refl) as [Hskip Hnext].
  split; [exact Hskip|].
  exact (Hnext "eth_sign" "p1" [] (fun p log => log ++ ["sign:" +:+ p])
           eq_refl eq_refl eq_refl).
Defined.

(** ** Further properties of the code *)

Lemma string_app_assoc (a b c : string) : (a +:+ b) +:+ c = a +:+ (b +:+ c).
Proof.
  induction a as [|x a IH]; [done|].
  change ((String x a +:+ b) +:+ c) with (String x ((a +:+ b) +:+ c)).
  by rewrite IH.
Qed.

Lemma Join_snoc (l : list string) (x : string) :
  GoStrings.Join (l ++ [x]) = GoStrings.Join l +:+ x.
Proof.
  unfold GoStrings.Join. induction l as [|a l IH]; [done|].
  destruct l as [|b l]; [done|].
  change (String.concat "" ((a :: b :: l) ++ [x]))
    with (a +:+ String.concat "" ((b :: l) ++ [x])).
  rewrite IH.
  change (String.concat "" (a :: b :: l)) with (a +:+ String.concat "" (b :: l)).
  by rewrite string_app_assoc.
Qed.

(** X1: whatever the type set, the string [encodeType] returns ends with the
    type's own signature; what precedes it are the encodings of the
    dependencies. *)
Theorem encodeType_ends_with_own_signature (types : TypeSet)
    (typeName : string) (rangeOrder : list string → list string) :
  visitsEachOnce rangeOrder →
  ∃ before,
    encodeType rangeOrder typeName types
    = Some (before +:+ (typeName +:+ "("
              +:+ encodeFields 0 (default [] (types !! typeName)) +:+ ")")).
Proof.
  intros HR.
  destruct (encodeType_range_irrelevant types typeName rangeOrder rangeOrder
              HR HR) as (s & Hs & _).
  rewrite Hs. unfold encodeType in Hs. simpl in Hs.
  rewrite decide_False in Hs by set_solver.
  destruct (findTypeDependencies rangeOrder typeName types) as [deps|];
    [|done].
  simpl in Hs.
  destruct (encodeDeps _ typeName (sort_Strings deps) [] _) as [[enc p]|];
    [|done].
  simpl in Hs. injection Hs as <-. rewrite Join_snoc. eauto.
Qed.

Lemma encodeType_ends_with_own_signature_witness :
  visitsEachOnce id
  ∧ ∃ before, encodeType id "A" tsChain = Some (before +:+ "A(B b,uint256 n)").
Proof.
  split; [exact visitsEachOnce_id|].
  exact (encodeType_ends_with_own_signature tsChain "A" id visitsEachOnce_id).
Defined.

(** X2: when every declared field has a value that encodes,
    [encodeMessageValues] returns the encodings concatenated in the order of
    the field list. *)
Theorem encodeMessageValues_declared_order (message : gmap string value)
    (fields : list TypedDataType) :
  (∀ f, f ∈ fields → ∃ v bs, message !! Name f = Some v
                             ∧ encodeValue v (Type_ f) = Returns (bs, None)) →
  encodeMessageValues message fields
  = Returns
      (concat ((λ f, returnedBytes
                       (encodeValue (default VOther (message !! Name f))
                          (Type_ f))) <$> fields), None).
Proof.
  unfold encodeMessageValues. intros Hall.
  change (concat ((λ f, returnedBytes
                          (encodeValue (default VOther (message !! Name f))
                             (Type_ f))) <$> fields))
    with ([] ++ concat ((λ f, returnedBytes
                                (encodeValue (default VOther (message !! Name f))
                                   (Type_ f))) <$> fields)).
  generalize (@nil byte) as values.
  induction fields as [|f fields IH]; intros values; simpl.
  - by rewrite app_nil_r.
  - destruct (Hall f) as (v & bs & Hv & Hbs); [apply elem_of_cons; by left|].
    rewrite Hv, Hbs. simpl. rewrite Hbs. simpl.
    rewrite IH by (intros g Hg; apply Hall; apply elem_of_cons; by right).
    by rewrite app_assoc.
Qed.

Lemma encodeMessageValues_declared_order_witness :
  encodeMessageValues (<["b" := VString "y"]> (<["a" := VString "x"]> ∅))
    [mkField "a" "string"; mkField "b" "string"]
  = Returns (bytes_of_string "xy", None).
Proof.
  rewrite (encodeMessageValues_declared_order
             (<["b" := VString "y"]> (<["a" := VString "x"]> ∅))
             [mkField "a" "string"; mkField "b" "string"]); [reflexivity|].
  intros f Hf. apply elem_of_cons in Hf as [->|Hf].
  - exists (VString "x"), (bytes_of_string "x"). split; reflexivity.
  - apply list_elem_of_singleton in Hf as ->.
    exists (VString "y"), (bytes_of_string "y"). split; reflexivity.
Defined.

(** The dispatch loop ends without an error when the context is done at
    a test, before anything is read, and ends with the wrapped error when a
    read fails; in both cases no callback runs. *)
Theorem HandleRequests_ends {S : Type} (done : nat → bool)
    (handlers : RequestHandlers S) (i : nat) (frames : list frame) (s : S) :
  (done i = true →
     HandleRequests done handlers i frames s = (Cancelled, s, []))
  ∧ (∀ err rest, done i = false → frames = ReadFails err :: rest →
     HandleRequests done handlers i frames s
     = (ReadFailed (ErrFailedToReadMessage err), s, [])).
Proof.
  split.
  - intros Hd. destruct frames; simpl; by rewrite Hd.
  - intros err rest Hd ->. simpl. by rewrite Hd.
Qed.

(** A [pub] frame whose payload decodes is returned as the request, and
    its peer metadata is stored in the client. *)
Theorem HandleSessionRequest_publish
    (unmarshal : RawMessage → SessionRequest.t + error) (c : WalletClient)
    (payload : RawMessage) (rest : list frame) (request : SessionRequest.t) :
  conn c = Frame "pub" payload :: rest → unmarshal payload = inl request →
  ∃ c', HandleSessionRequest unmarshal c = Returned (Some request, None) c'
        ∧ peerMeta c' = SessionRequest.PeerMeta request ∧ conn c' = rest.
Proof.
  intros Hconn Hdec. unfold HandleSessionRequest. rewrite Hconn.
  rewrite decide_False by (intros Hne; by apply Hne).
  rewrite Hdec. eauto.
Qed.

Lemma HandleSessionRequest_publish_witness :
  ∃ c', HandleSessionRequest (fun _ => inl sampleRequest)
          (freshClient [Frame "pub" "{}"])
        = Returned (Some sampleRequest, None) c'
        ∧ peerMeta c' = SessionRequest.PeerMeta sampleRequest ∧ conn c' = [].
Proof.
  exact (HandleSessionRequest_publish (fun _ => inl sampleRequest)
           (freshClient [Frame "pub" "{}"]) "{}" [] sampleRequest
           eq_refl eq_refl).
Defined.

(** * Further properties of the code *)

(** ** [findTypeDependencies] computes reachability *)

Section BfsFacts.
Variable types : TypeSet.

Lemma scanFields_spec fields deps queue :
  ∃ new,
    (scanFields types fields deps queue).2 = queue ++ new
    ∧ (∀ x, x ∈ (scanFields types fields deps queue).1 ↔ x ∈ deps ∨ x ∈ new)
    ∧ (∀ x, x ∈ new → ∃ f, f ∈ fields ∧ Type_ f = x ∧ is_Some (types !! x))
    ∧ (∀ f, f ∈ fields → is_Some (types !! Type_ f) →
         Type_ f ∈ (scanFields types fields deps queue).1).
Proof.
  revert deps queue. induction fields as [|f fs IH]; intros deps queue.
  - exists []. simpl. rewrite app_nil_r. split; [done|].
    split; [intros x; rewrite elem_of_nil; tauto|].
    split; intros ? Hin; by apply elem_of_nil in Hin.
  - simpl. destruct (types !! Type_ f) as [v|] eqn:Hlk.
    + destruct (decide (Type_ f ∈ deps)) as [Hin|Hnin].
      * destruct (IH deps queue) as (new & Hq & Hd & Hnew & Hall).
        exists new. split; [done|]. split; [done|]. split.
        -- intros x Hx. destruct (Hnew x Hx) as (g & Hg & ? & ?).
           exists g. split; [by right|done].
        -- intros g Hg Hsome. apply elem_of_cons in Hg as [->|Hg]; [|by apply Hall].
           apply Hd. by left.
      * destruct (IH ({[Type_ f]} ∪ deps) (queue ++ [Type_ f]))
          as (new & Hq & Hd & Hnew & Hall).
        exists (Type_ f :: new). split; [by rewrite Hq, <- app_assoc|].
        split; [|split].
        -- intros x. rewrite Hd, elem_of_union, elem_of_singleton, elem_of_cons.
           tauto.
        -- intros x Hx. apply elem_of_cons in Hx as [->|Hx].
           ++ exists f. split; [by left|]. split; [done|]. by rewrite Hlk.
           ++ destruct (Hnew x Hx) as (g & Hg & ? & ?).
              exists g. split; [by right|done].
        -- intros g Hg Hsome. apply elem_of_cons in Hg as [->|Hg]; [|by apply Hall].
           apply Hd. left. apply elem_of_union. left. by apply elem_of_singleton.
    + destruct (IH deps queue) as (new & Hq & Hd & Hnew & Hall).
      exists new. split; [done|]. split; [done|]. split.
      * intros x Hx. destruct (Hnew x Hx) as (g & Hg & ? & ?).
        exists g. split; [by right|done].
      * intros g Hg Hsome. apply elem_of_cons in Hg as [->|Hg]; [|by apply Hall].
        rewrite Hlk in Hsome. by destruct Hsome.
Qed.

Lemma bfsInv_start typeName : bfsInv types typeName 0 ∅ [typeName].
Proof.
  split; [|split].
  - exists []. split; [done|]. intros x. rewrite elem_of_nil. set_solver.
  - intros x Hx. set_solver.
  - intros j a b Hj. lia.
Qed.

Lemma bfsInv_step typeName i deps queue cur :
  bfsInv types typeName i deps queue → queue !! i = Some cur →
  bfsInv types typeName (S i)
    (scanFields types (default [] (types !! cur)) deps queue).1
    (scanFields types (default [] (types !! cur)) deps queue).2.
Proof.
  intros ((q & Hqueue & Hdeps) & Hsound & Hclosed) Hcur.
  destruct (scanFields_spec (default [] (types !! cur)) deps queue)
    as (new & Hq & Hd & Hnew & Hall).
  rewrite Hq.
  assert (cur = typeName ∨ cur ∈ deps) as Hcur'.
  { subst queue. destruct i as [|i]; simpl in Hcur.
    - left. congruence.
    - right. apply Hdeps. by eapply list_elem_of_lookup_2. }
  assert (∀ x, x ∈ new → refersTo types cur x) as Href.
  { intros x Hx. destruct (Hnew x Hx) as (f & Hf & Hty & Hsome).
    destruct (types !! cur) as [fields|] eqn:Hlk; simpl in Hf;
      [|by apply elem_of_nil in Hf].
    by exists fields, f. }
  split; [|split].
  - exists (q ++ new). split; [by rewrite Hqueue|].
    intros x. rewrite Hd, elem_of_app, Hdeps. tauto.
  - intros x Hx. apply Hd in Hx as [Hx|Hx]; [by apply Hsound|].
    destruct Hcur' as [->|Hc].
    + apply tc_once. by apply Href.
    + eapply tc_r; [by apply Hsound|by apply Href].
  - intros j a b Hj Ha Hab. apply Hd.
    assert (j < length queue) as Hlen.
    { apply lookup_lt_Some in Hcur. lia. }
    rewrite lookup_app_l in Ha by done.
    destruct (decide (j = i)) as [->|Hne].
    + assert (a = cur) as -> by congruence.
      destruct Hab as (fields & f & Hlk & Hf & Hty & Hsome).
      apply Hd. subst b. apply Hall; [by rewrite Hlk|done].
    + left. eapply Hclosed; [|done..]. lia.
Qed.

Lemma bfsInv_final typeName i deps queue :
  bfsInv types typeName i deps queue → queue !! i = None →
  ∀ x, x ∈ deps ↔ reachable types typeName x.
Proof.
  intros ((q & Hqueue & Hdeps) & Hsound & Hclosed) Hq x.
  split; [apply Hsound|].
  assert (∀ a, a = typeName ∨ a ∈ deps →
            ∀ b, refersTo types a b → b ∈ deps) as Hstep.
  { intros a Ha b Hab. apply lookup_ge_None in Hq.
    assert (a ∈ queue) as Hin.
    { subst queue. destruct Ha as [->|Ha]; [by left|]. right. by apply Hdeps. }
    apply list_elem_of_lookup in Hin as [j Hj].
    eapply Hclosed; [|done..]. apply lookup_lt_Some in Hj. lia. }
  assert (∀ a b, tc (refersTo types) a b → a = typeName ∨ a ∈ deps → b ∈ deps)
    as Hall.
  { intros a b Hab. induction Hab as [a b Hab|a b c Hab Hbc IHt]; intros Ha.
    - by eapply Hstep.
    - apply IHt. right. by eapply Hstep. }
  intros Hreach. eapply Hall; [exact Hreach|by left].
Qed.

Lemma depsLoop_reachable typeName fuel i deps queue d :
  bfsInv types typeName i deps queue →
  depsLoop fuel types i deps queue = Some d →
  ∀ x, x ∈ d ↔ reachable types typeName x.
Proof.
  revert i deps queue. induction fuel as [|fuel IH]; intros i deps queue Hinv.
  - simpl. destruct (queue !! i) as [cur|] eqn:Hq; [done|].
    intros [= <-]. by eapply bfsInv_final.
  - simpl. destruct (queue !! i) as [cur|] eqn:Hq.
    + pose proof (bfsInv_step typeName i deps queue cur Hinv Hq) as Hinv'.
      destruct (scanFields types (default [] (types !! cur)) deps queue)
        as [deps' queue'].
      by apply IH.
    + intros [= <-]. by eapply bfsInv_final.
Qed.

End BfsFacts.

(** X3: [findTypeDependencies] returns, without repetition, exactly the
    types reachable from [typeName] through fields whose type is a key of
    the type set. *)
Theorem findTypeDependencies_reachable (types : TypeSet) (typeName : string)
    (rangeOrder : list string → list string) :
  visitsEachOnce rangeOrder →
  ∃ deps, findTypeDependencies rangeOrder typeName types = Some deps
          ∧ NoDup deps
          ∧ ∀ x, x ∈ deps ↔ reachable types typeName x.
Proof.
  intros HR. unfold findTypeDependencies.
  destruct (depsLoop_start_total types typeName) as (d & Hd & _).
  rewrite Hd. simpl. eexists. split; [done|]. split.
  - rewrite (HR (elements d)). apply NoDup_elements.
  - intros x. rewrite (HR (elements d)), elem_of_elements.
    eapply depsLoop_reachable; [apply bfsInv_start|exact Hd].
Qed.

Lemma findTypeDependencies_reachable_witness :
  visitsEachOnce reverse
  ∧ ∃ deps, findTypeDependencies reverse "A" tsChain = Some deps
            ∧ NoDup deps
            ∧ ∀ x, x ∈ deps ↔ reachable tsChain "A" x.
Proof.
  split; [exact visitsEachOnce_reverse|].
  exact (findTypeDependencies_reachable tsChain "A" reverse
           visitsEachOnce_reverse).
Defined.

Example findTypeDependencies_chain :
  findTypeDependencies reverse "A" tsChain = Some ["B"; "C"].
Proof. reflexivity. Qed.

Lemma encodeDeps_only_self
    (rec : string → gset string → option (string * gset string))
    (typeName : string) (deps encoded : list string) (p : gset string) :
  (∀ x, x ∈ deps → x = typeName) →
  encodeDeps rec typeName deps encoded p = Some (encoded, p).
Proof.
  induction deps as [|dep rest IH]; intros Hall; [done|]. simpl.
  rewrite decide_False by (intros Hne; apply Hne, Hall; by left).
  apply IH. intros x Hx. apply Hall. by right.
Qed.

(** X4: a type none of whose fields refers to another type of the type set
    (all its field types are primitive, or name the type itself) is encoded
    as its own signature and nothing else. *)
Theorem encodeType_without_dependencies (types : TypeSet) (typeName : string)
    (rangeOrder : list string → list string) :
  visitsEachOnce rangeOrder →
  (∀ b, refersTo types typeName b → b = typeName) →
  encodeType rangeOrder typeName types = Some (ownSignature typeName types).
Proof.
  intros HR Hleaf.
  destruct (findTypeDependencies_reachable types typeName rangeOrder HR)
    as (deps & Hdeps & _ & Hreach).
  assert (∀ x, reachable types typeName x → x = typeName) as Hself.
  { intros x Hx. unfold reachable in Hx.
    induction Hx as [a b Hab|a b c Hab Hbc IHt]; [by apply Hleaf|].
    apply Hleaf in Hab as ->. by apply IHt. }
  unfold encodeType. simpl. rewrite decide_False by set_solver.
  rewrite Hdeps. simpl.
  rewrite encodeDeps_only_self; [done|].
  intros x Hx. apply Hself, Hreach.
  by rewrite <- (sort_Strings_perm deps).
Qed.

Lemma encodeType_without_dependencies_witness :
  encodeType id "Node" tsSelf = Some "Node(Node next,uint256 value)".
Proof.
  apply (encodeType_without_dependencies tsSelf "Node" id visitsEachOnce_id).
  intros b (fields & f & Hlk & Hf & Hty & Hsome).
  destruct (decide (b = "Node")) as [->|Hne]; [done|].
  unfold tsSelf in Hsome. rewrite lookup_insert_ne, lookup_empty in Hsome by done.
  by destruct Hsome.
Defined.

(** ** The encoding of an acyclic type set *)

Lemma dependencySet_spec (types : TypeSet) (typeName : string) :
  depsLoop (S (size types)) types 0 ∅ [typeName]
  = Some (dependencySet types typeName)
  ∧ ∀ x, x ∈ dependencySet types typeName ↔ reachable types typeName x.
Proof.
  destruct (depsLoop_start_total types typeName) as (d & Hd & _).
  unfold dependencySet. rewrite Hd. simpl. split; [done|].
  eapply depsLoop_reachable; [apply bfsInv_start|exact Hd].
Qed.

Lemma reachable_known (types : TypeSet) (a b : string) :
  reachable types a b → is_Some (types !! a).
Proof.
  intros Hab. destruct Hab as [a b (fields & f & Hlk & _)
                              |a b c (fields & f & Hlk & _) _]; eauto.
Qed.

(** In an acyclic type set no type is reached from itself. *)
Lemma acyclic_irreflexive (types : TypeSet) :
  acyclic types → ∀ k, ¬ reachable types k k.
Proof.
  intros Hac k Hkk.
  pose proof (reachable_known _ _ _ Hkk) as Hk.
  unfold acyclic, acyclicb in Hac. rewrite forallb_forall in Hac.
  destruct (dependencySet_spec types k) as [Hd Hspec].
  assert (In k (elements (dom types))) as Hin.
  { apply list_elem_of_In, elem_of_elements, elem_of_dom. exact Hk. }
  apply Hac in Hin. rewrite Hd in Hin. apply bool_decide_eq_true in Hin.
  by apply Hin, Hspec.
Qed.

(** A dependency of a type in an acyclic type set has fewer dependencies
    than the type. *)
Lemma dependencySet_shrinks (types : TypeSet) (t d : string) :
  acyclic types → reachable types t d →
  size (dependencySet types d) < size (dependencySet types t).
Proof.
  intros Hac Htd. apply subset_size. split.
  - intros x Hx. apply dependencySet_spec. apply dependencySet_spec in Hx.
    by eapply tc_transitive.
  - intros Hsub. apply (acyclic_irreflexive types Hac d).
    apply dependencySet_spec, Hsub, dependencySet_spec, Htd.
Qed.

(** The loop over the dependencies when every one of them differs from the
    type, encodes to a string that is not empty and hands [processing]
    back: the strings are appended in the order of the dependencies. *)
Lemma encodeDeps_all
    (rec : string → gset string → option (string * gset string))
    (typeName : string) (q : gset string) (deps sigs : list string) :
  Forall2 (λ d s, d ≠ typeName ∧ s ≠ "" ∧ rec d q = Some (s, q)) deps sigs →
  ∀ encoded, encodeDeps rec typeName deps encoded q = Some (encoded ++ sigs, q).
Proof.
  induction 1 as [|d s deps sigs (Hne & Hs & Hrec) _ IH]; intros encoded; simpl.
  - by rewrite app_nil_r.
  - rewrite decide_True by done. rewrite Hrec. simpl.
    rewrite decide_True by done. rewrite IH. by rewrite <- app_assoc.
Qed.

Lemma Forall2_choice {A B : Type} (P : A → B → Prop) (l : list A) :
  (∀ a, a ∈ l → ∃ b, P a b) → ∃ k, Forall2 P l k.
Proof.
  induction l as [|a l IH]; intros Hall; [by exists []|].
  destruct (Hall a) as [b Hb]; [by left|].
  destruct IH as [k Hk]; [intros a' Ha'; apply Hall; by right|].
  exists (b :: k). by constructor.
Qed.

Lemma string_app_empty (a b : string) : a +:+ b = "" → b = "".
Proof. destruct a; [done|discriminate]. Qed.

Lemma ownSignature_not_empty (typeName : string) (types : TypeSet) :
  ownSignature typeName types ≠ "".
Proof.
  unfold ownSignature. intros Hemp.
  apply string_app_empty in Hemp. discriminate.
Qed.

(** In an acyclic type set, a call of [encodeTypeWithContext] for a type
    that is not marked in [processing], and none of whose dependencies is,
    returns the encodings of the dependencies, in the ascending order of
    their names, followed by the type's own signature; each of these
    encodings is what [encodeType] returns for the dependency. *)
Lemma encodeTypeWithContext_acyclic (types : TypeSet) :
  acyclic types →
  ∀ k t, size (dependencySet types t) ≤ k →
  ∃ sigs,
    Forall2 (λ d s, encodeType id d types = Some s)
      (sort_Strings (elements (dependencySet types t))) sigs
    ∧ ∀ p R fuel,
        t ∉ p → (∀ x, reachable types t x → x ∉ p) →
        visitsEachOnce R → size (dom types ∖ p) < fuel →
        encodeTypeWithContext R fuel t types p
        = Some (GoStrings.Join sigs +:+ ownSignature t types, p).
Proof.
  intros Hac k. induction k as [k IH] using lt_wf_ind. intros t Hsz.
  destruct (dependencySet_spec types t) as [Hd Hspec].
  set (l := sort_Strings (elements (dependencySet types t))).
  assert (∀ d, d ∈ l ↔ reachable types t d) as Hl.
  { intros d. unfold l. by rewrite sort_Strings_perm, elem_of_elements. }
  destruct (Forall2_choice
    (λ d s, reachable types t d ∧ s ≠ ""
            ∧ ∀ p R fuel,
                d ∉ p → (∀ x, reachable types d x → x ∉ p) →
                visitsEachOnce R → size (dom types ∖ p) < fuel →
                encodeTypeWithContext R fuel d types p = Some (s, p)) l)
    as [sigs Hsigs].
  { intros d Hin. apply Hl in Hin.
    pose proof (dependencySet_shrinks types t d Hac Hin) as Hlt.
    destruct (IH (size (dependencySet types d)) ltac:(lia) d ltac:(lia))
      as (sigs_d & _ & Henc).
    exists (GoStrings.Join sigs_d +:+ ownSignature d types).
    split; [done|]. split; [|exact Henc].
    intros Hemp. apply string_app_empty in Hemp.
    by apply ownSignature_not_empty in Hemp. }
  exists sigs. split.
  - eapply Forall2_impl; [exact Hsigs|].
    intros d s (_ & _ & Henc). unfold encodeType.
    rewrite (Henc ∅ id (S (size types))); [done|set_solver|set_solver| |].
    + exact (λ l0, reflexivity l0).
    + rewrite difference_empty_L, size_dom. lia.
  - intros p R fuel Htp Hreach HR Hfuel.
    destruct fuel as [|fuel]; [lia|]. simpl.
    rewrite decide_False by done.
    unfold findTypeDependencies. rewrite Hd. simpl.
    rewrite (sort_Strings_order_irrelevant _ (elements (dependencySet types t)))
      by apply HR.
    fold l.
    rewrite (encodeDeps_all _ t ({[t]} ∪ p) l sigs).
    + simpl. rewrite processing_restored by done.
      by rewrite Join_snoc.
    + eapply Forall2_impl; [exact Hsigs|].
      intros d s (Htd & Hs & Henc).
      assert (d ≠ t) as Hne.
      { intros ->. by apply (acyclic_irreflexive types Hac t). }
      split; [done|]. split; [done|].
      apply Henc; [| |done|].
      * apply not_elem_of_union. split; [set_solver|by apply Hreach].
      * intros x Hdx. apply not_elem_of_union. split.
        -- intros Hx. apply elem_of_singleton in Hx as ->.
           apply (acyclic_irreflexive types Hac t).
           by eapply tc_transitive.
        -- apply Hreach. by eapply tc_transitive.
      * apply reachable_known in Htd.
        assert (t ∈ dom types ∖ p) as Hin
          by (apply elem_of_difference; split; [by apply elem_of_dom|done]).
        assert (dom types ∖ ({[t]} ∪ p) ⊂ dom types ∖ p) as Hsub.
        { split; [set_solver|]. intros Hsub. apply Hsub in Hin. set_solver. }
        apply subset_size in Hsub. lia.
Qed.

(** C4: for every acyclic type set, built from its entries in any order,
    and whatever order [range] visits the dependency map in, [encodeType]
    returns the same string: the encodings of the dependencies of the type,
    one for each type reachable from it, concatenated in the ascending
    lexicographic order of the dependency names, followed by the type's own
    signature.  The encoding of a dependency is what [encodeType] returns
    for it, so it starts with the encodings of its own dependencies. *)
Theorem encodeType_order_invariant
    (entries1 entries2 : list (string * list TypedDataType))
    (typeName : string) (R1 R2 : list string → list string) :
  NoDup entries1.*1 → entries1 ≡ₚ entries2 →
  acyclic (list_to_map entries1) →
  visitsEachOnce R1 → visitsEachOnce R2 →
  ∃ deps sigs,
    Sorted String.le deps ∧ NoDup deps
    ∧ (∀ x, x ∈ deps ↔ reachable (list_to_map entries1) typeName x)
    ∧ Forall2 (λ d s, encodeType R1 d (list_to_map entries1) = Some s
                      ∧ encodeType R2 d (list_to_map entries2) = Some s)
        deps sigs
    ∧ encodeType R1 typeName (list_to_map entries1)
      = Some (GoStrings.Join sigs
                +:+ ownSignature typeName (list_to_map entries1))
    ∧ encodeType R2 typeName (list_to_map entries2)
      = Some (GoStrings.Join sigs
                +:+ ownSignature typeName (list_to_map entries1)).
Proof.
  intros Hnd Hperm Hac H1 H2.
  rewrite <- (list_to_map_proper entries1 entries2 Hnd Hperm).
  set (types := list_to_map entries1 : TypeSet) in *.
  destruct (encodeTypeWithContext_acyclic types Hac
              (size (dependencySet types typeName)) typeName (le_n _))
    as (sigs & Hsigs & Henc).
  exists (sort_Strings (elements (dependencySet types typeName))), sigs.
  split; [apply sort_Strings_sorted|]. split.
  { rewrite sort_Strings_perm. apply NoDup_elements. }
  split.
  { intros x. rewrite sort_Strings_perm, elem_of_elements.
    apply dependencySet_spec. }
  split.
  { eapply Forall2_impl; [exact Hsigs|]. intros d s Hs.
    destruct (encodeType_range_irrelevant types d id R1 visitsEachOnce_id H1)
      as (s1 & Hid1 & Hs1).
    destruct (encodeType_range_irrelevant types d id R2 visitsEachOnce_id H2)
      as (s2 & Hid2 & Hs2).
    split; congruence. }
  assert (∀ R, visitsEachOnce R →
            encodeType R typeName types
            = Some (GoStrings.Join sigs +:+ ownSignature typeName types))
    as Htop.
  { intros R HR. unfold encodeType.
    rewrite (Henc ∅ R (S (size types))); [done|set_solver|set_solver|done|].
    rewrite difference_empty_L, size_dom. lia. }
  split; by apply Htop.
Qed.

Lemma encodeType_order_invariant_witness :
  ∃ deps sigs,
    Sorted String.le deps ∧ NoDup deps
    ∧ (∀ x, x ∈ deps ↔ reachable (list_to_map forkEntries) "A" x)
    ∧ Forall2 (λ d s, encodeType id d (list_to_map forkEntries) = Some s
                      ∧ encodeType reverse d
                          (list_to_map (reverse forkEntries)) = Some s)
        deps sigs
    ∧ encodeType id "A" (list_to_map forkEntries)
      = Some (GoStrings.Join sigs
                +:+ ownSignature "A" (list_to_map forkEntries))
    ∧ encodeType reverse "A" (list_to_map (reverse forkEntries))
      = Some (GoStrings.Join sigs
                +:+ ownSignature "A" (list_to_map forkEntries)).
Proof.
  apply (encodeType_order_invariant forkEntries (reverse forkEntries) "A"
           id reverse).
  - vm_compute. repeat constructor; set_solver.
  - symmetry. apply reverse_Permutation.
  - reflexivity.
  - exact visitsEachOnce_id.
  - exact visitsEachOnce_reverse.
Defined.

(** The fields of [A] name [C] before [B], and the encoding of [B] comes
    first. *)
Example encodeType_fork :
  encodeType id "A" (list_to_map forkEntries) = Some "B()C()A(C c,B b)"
  ∧ encodeType reverse "A" (list_to_map (reverse forkEntries))
    = Some "B()C()A(C c,B b)".
Proof. split; reflexivity. Qed.

(** In the chain the encoding of [B] holds the one of [C], which comes once
    more as a dependency of [A]. *)
Example encodeType_chain_order :
  encodeType id "A" (list_to_map chainEntries)
  = Some "C()B(C c)C()A(B b,uint256 n)".
Proof. reflexivity. Qed.

(** ** The value encoders *)

(** X5: [encodeValue] looks at the dynamic type of the value only.  It
    returns bytes exactly when the declared type is one of the three it knows
    and the value has the matching dynamic type, the [uint256] one being a
    non-nil [big.Int] pointer, whatever the content (a negative or oversized
    number, a text that is no address).  It panics exactly on a nil
    [big.Int] pointer under [uint256].  In every other case it returns an
    error and no bytes, and the error is the unsupported-type one exactly
    for a declared type it does not know. *)
Theorem encodeValue_succeeds_iff (v : value) (typ : string) :
  ((∃ bs, encodeValue v typ = Returns (bs, None)) ↔ valueFits v typ)
  ∧ ((∃ why, encodeValue v typ = Panics why) ↔
     typ = "uint256" ∧ v = VBigIntNil)
  ∧ encodeValue v typ ≠ OutOfFuel
  ∧ (∀ bs e, encodeValue v typ = Returns (bs, Some e) →
       bs = [] ∧ (e = ErrUnsupportedType typ ↔ ¬ supportedType typ)).
Proof.
  split; [|split; [|split]].
  - unfold encodeValue, valueFits.
    destruct (decide (typ = "string")) as [->|Hs].
    { destruct v; split; try (intros [? ?]; done); try naive_solver. }
    destruct (decide (typ = "uint256")) as [->|Hu].
    { destruct v; split; try (intros [? ?]; done); try naive_solver. }
    destruct (decide (typ = "address")) as [->|Ha].
    { destruct v; split; try (intros [? ?]; done); try naive_solver. }
    split; [intros [? ?]; done|naive_solver].
  - split.
    + intros [why Hp]. by apply encodeValue_panics_iff in Hp as (? & ? & _).
    + intros [-> ->]. by exists nilDereference.
  - apply encodeValue_never_out_of_fuel.
  - intros bs e Henc. split; [by eapply encodeValue_error_no_bytes|].
    revert Henc. unfold encodeValue, supportedType.
    destruct (decide (typ = "string")) as [->|Hs].
    { destruct v; intros [= <- <-]; split; try done; naive_solver. }
    destruct (decide (typ = "uint256")) as [->|Hu].
    { destruct v; intros [=]; subst; split; try done; naive_solver. }
    destruct (decide (typ = "address")) as [->|Ha].
    { destruct v; intros [= <- <-]; split; try done; naive_solver. }
    intros [= <- <-]. split; [naive_solver|done].
Qed.

Lemma encodeMessageLoop_agree (m1 m2 : gmap string value)
    (fields : list TypedDataType) :
  (∀ f, f ∈ fields → m1 !! Name f = m2 !! Name f) →
  ∀ values, encodeMessageLoop m1 fields values = encodeMessageLoop m2 fields values.
Proof.
  induction fields as [|f fields IH]; intros Hagree values; [done|]. simpl.
  rewrite <- (Hagree f) by by left.
  destruct (m1 !! Name f) as [v|]; [|done].
  destruct (encodeValue v (Type_ f)) as [[bs [e|]]|why|]; try done.
  apply IH. intros g Hg. apply Hagree. by right.
Qed.

(** X6: [encodeMessageValues] reads the message only at the names of the
    declared fields: an entry under any other key does not change the
    result. *)
Theorem encodeMessageValues_ignores_undeclared (message : gmap string value)
    (fields : list TypedDataType) (k : string) (v : value) :
  (∀ f, f ∈ fields → Name f ≠ k) →
  encodeMessageValues (<[k := v]> message) fields
  = encodeMessageValues message fields.
Proof.
  intros Hfresh. apply encodeMessageLoop_agree.
  intros f Hf. apply lookup_insert_ne. intros ->. by eapply Hfresh.
Qed.

Lemma encodeMessageValues_ignores_undeclared_witness :
  encodeMessageValues (<["extra" := VOther]> (<["a" := VString "x"]> ∅))
    [mkField "a" "string"]
  = encodeMessageValues (<["a" := VString "x"]> ∅) [mkField "a" "string"].
Proof.
  apply (encodeMessageValues_ignores_undeclared (<["a" := VString "x"]> ∅)
           [mkField "a" "string"] "extra" VOther).
  intros f Hf. apply list_elem_of_singleton in Hf as ->. discriminate.
Defined.

(** X7: [encodeDomainValues] fails exactly when a salt is given that, an
    optional [0x] dropped, is not well-formed hexadecimal; then it returns
    no bytes and the error of the hex decoder.  Name, version, chain id and
    contract address never make it fail. *)
Theorem encodeDomainValues_fails_iff (domain : TypedDataDomain.t) :
  ((encodeDomainValues domain).2 ≠ None ↔
     TypedDataDomain.Salt domain ≠ ""
     ∧ validHex (GoStrings.TrimPrefix (TypedDataDomain.Salt domain) "0x") = false)
  ∧ (∀ e, (encodeDomainValues domain).2 = Some e →
       (encodeDomainValues domain).1 = [] ∧ ∃ h, e = ErrHex h).
Proof.
  unfold encodeDomainValues.
  destruct (decide (TypedDataDomain.Salt domain ≠ "")) as [Hsalt|Hsalt].
  - pose proof (DecodeString_ok_iff
                  (GoStrings.TrimPrefix (TypedDataDomain.Salt domain) "0x")) as Hok.
    destruct (GoHex.DecodeString
                (GoStrings.TrimPrefix (TypedDataDomain.Salt domain) "0x"))
      as [salt [h|]]; simpl in *.
    + split.
      * split; [|done]. intros _. split; [done|].
        destruct (validHex _); [|done]. by destruct Hok as [_ Hok]; discriminate Hok.
      * intros e [= <-]. eauto.
    + split; [|done]. split; [done|].
      intros [_ Hbad]. rewrite (proj1 Hok eq_refl) in Hbad. discriminate.
  - simpl. split; [|done]. split; [done|]. intros [? _]. done.
Qed.

Lemma bytes_of_string_app (a b : string) :
  bytes_of_string (a +:+ b) = bytes_of_string a ++ bytes_of_string b.
Proof.
  unfold bytes_of_string, String.list_byte_of_string.
  induction a as [|c a IH]; [done|].
  change (String c a +:+ b) with (String c (a +:+ b)).
  simpl. by rewrite IH.
Qed.

(** X8: name and version enter the domain encoding back to back, with no
    length and no separator: moving text from the end of the name to the
    start of the version leaves the encoding, and so the domain separator,
    unchanged. *)
Theorem encodeDomainValues_name_version_collide (a b c : string)
    (chainId : option Z) (contract salt : string) :
  encodeDomainValues (TypedDataDomain.mk (a +:+ b) c chainId contract salt)
  = encodeDomainValues (TypedDataDomain.mk a (b +:+ c) chainId contract salt).
Proof.
  unfold encodeDomainValues. simpl.
  by rewrite !bytes_of_string_app, app_assoc.
Qed.

(** ** The signing facade *)



Lemma substring_all (s : string) : String.substring 0 (String.length s) s = s.
Proof. induction s as [|c s IH]; [done|]. simpl. by rewrite IH. Qed.

Lemma HasPrefix_app (pre s : string) : GoStrings.HasPrefix (pre +:+ s) pre = true.
Proof.
  unfold GoStrings.HasPrefix. induction pre as [|c pre IH]; [by destruct s|].
  change (String c pre +:+ s) with (String c (pre +:+ s)). simpl.
  destruct (ascii_dec c c); [done|congruence].
Qed.

Lemma TrimPrefix_app (pre s : string) : GoStrings.TrimPrefix (pre +:+ s) pre = s.
Proof.
  unfold GoStrings.TrimPrefix. rewrite HasPrefix_app.
  induction pre as [|c pre IH].
  - change ("" +:+ s) with s. simpl. rewrite Nat.sub_0_r. apply substring_all.
  - change (String c pre +:+ s) with (String c (pre +:+ s)). simpl. exact IH.
Qed.


(** X10: the result of [TypedDataSign] does not depend on the order in which
    [range] visits the dependency maps: the same wallet and typed data give
    the same result on every run. *)
Theorem TypedDataSign_range_order_irrelevant `{Crypto}
    (R1 R2 : list string → list string) (w : Wallet) (data : TypedData) :
  visitsEachOnce R1 → visitsEachOnce R2 →
  TypedDataSign R1 w data = TypedDataSign R2 w data.
Proof.
  intros H1 H2. unfold TypedDataSign.
  destruct (encodeType_range_irrelevant (Types data) "EIP712Domain" R1 R2 H1 H2)
    as (domainType & -> & ->).
  destruct (encodeType_range_irrelevant (Types data) (PrimaryType data) R1 R2 H1 H2)
    as (primaryType & -> & ->).
  done.
Qed.

Lemma TypedDataSign_range_order_irrelevant_witness :
  visitsEachOnce id ∧ visitsEachOnce reverse
  ∧ TypedDataSign id goodKeyWallet (mkTypedData tsChain "A" emptyDomain ∅)
    = TypedDataSign reverse goodKeyWallet (mkTypedData tsChain "A" emptyDomain ∅).
Proof.
  split; [exact visitsEachOnce_id|]. split; [exact visitsEachOnce_reverse|].
  exact (TypedDataSign_range_order_irrelevant id reverse goodKeyWallet
           (mkTypedData tsChain "A" emptyDomain ∅)
           visitsEachOnce_id visitsEachOnce_reverse).
Defined.

(** X11: when the key decodes and [crypto.Sign] returns a signature of at
    least 65 bytes, [Sign] returns it with byte 64 raised by 27 (modulo 256)
    and every other byte, and the length, unchanged; on a shorter signature
    the index expression panics. *)
Theorem Sign_bumps_recovery_byte `{Crypto} (w : Wallet) (data : list byte)
    (k : ecdsaKey) (signature : list byte) :
  HexToECDSA (PrivateKey w) = inl k →
  crypto_Sign
    (Keccak256 (bytes_of_string (ethereumPrefix +:+ decimal (length data)) ++ data))
    (Some k) = Returns (signature, None) →
  (length signature ≤ 64 → Sign w data = Panics "index out of range")
  ∧ (64 < length signature →
     ∃ signature' v,
       Sign w data = Returns (signature', None)
       ∧ length signature' = length signature
       ∧ signature !! 64 = Some v
       ∧ signature' !! 64 = Some (byte_of_N (N_of_byte v + 27))
       ∧ ∀ i, i ≠ 64 → signature' !! i = signature !! i).
Proof.
  intros Hkey Hsign. unfold Sign. rewrite Hkey. lazy beta iota zeta.
  rewrite Hsign.
  unfold bumpRecoveryId. split.
  - intros Hshort. by rewrite (lookup_ge_None_2 signature 64 Hshort).
  - intros Hlong. destruct (lookup_lt_is_Some_2 signature 64 Hlong) as [v Hv].
    rewrite Hv. eexists _, v. split; [done|].
    split; [by rewrite length_insert|]. split; [done|]. split.
    + by rewrite list_lookup_insert_eq.
    + intros i Hi. by rewrite list_lookup_insert_ne.
Qed.

Lemma Sign_bumps_recovery_byte_witness :
  ∃ signature' v,
    Sign goodKeyWallet (bytes_of_string "hi") = Returns (signature', None)
    ∧ length signature' = 65
    ∧ replicate 65 Byte.x00 !! 64 = Some v
    ∧ signature' !! 64 = Some (byte_of_N (N_of_byte v + 27))
    ∧ ∀ i, i ≠ 64 → signature' !! i = replicate 65 Byte.x00 !! i.
Proof.
  apply (@Sign_bumps_recovery_byte toyCrypto goodKeyWallet
           (bytes_of_string "hi") (replicate 32 Byte.x01)
           (replicate 65 Byte.x00) eq_refl eq_refl).
  simpl. lia.
Defined.

(** ** The pairing URI, again *)

Lemma Count_app (sep : ascii) (a b : string) :
  GoStrings.Count sep (a +:+ b) = GoStrings.Count sep a + GoStrings.Count sep b.
Proof.
  induction a as [|c a IH]; [done|].
  change (String c a +:+ b) with (String c (a +:+ b)). simpl. rewrite IH. lia.
Qed.

Lemma cut_app (sep : ascii) (a b : string) :
  GoStrings.Count sep a = 0 →
  GoStrings.cut sep (a +:+ String sep b) = Some (a, b).
Proof.
  induction a as [|c a IH]; intros Hc.
  - change ("" +:+ String sep b) with (String sep b). simpl.
    by rewrite Ascii.eqb_refl.
  - change (String c a +:+ String sep b) with (String c (a +:+ String sep b)).
    simpl in *. destruct (Ascii.eqb c sep); [done|]. by rewrite IH.
Qed.

Lemma cut_Some_first (sep : ascii) (s a b : string) :
  GoStrings.cut sep s = Some (a, b) → GoStrings.Count sep a = 0.
Proof.
  revert a. induction s as [|c s IH]; intros a; simpl; [done|].
  destruct (Ascii.eqb c sep) eqn:Hc; [by intros [= <- <-]|].
  destruct (GoStrings.cut sep s) as [[a' b']|]; [|done].
  intros [= <- <-]. simpl. rewrite Hc. by apply IH.
Qed.

Lemma string_cons_app_ne_empty (c : ascii) (a b : string) :
  String c a +:+ b ≠ "".
Proof. change (String c a +:+ b) with (String c (a +:+ b)). discriminate. Qed.

Lemma Split_app_one (sep : ascii) (a b : string) :
  GoStrings.Count sep a = 0 → GoStrings.Count sep b = 0 →
  GoStrings.Split (a +:+ String sep b) sep = [a; b].
Proof.
  intros Ha Hb. unfold GoStrings.Split.
  rewrite Count_app, Ha. simpl. rewrite Ascii.eqb_refl, Hb. simpl.
  by rewrite cut_app.
Qed.

Lemma parseQuery_pair (k v : string) (rest : list string)
    (query : gmap string string) :
  GoStrings.Count "=" k = 0 →
  parseQuery ((k +:+ String "=" v) :: rest) query
  = parseQuery rest (<[k := v]> query).
Proof.
  intros Hk. cbn [parseQuery]. rewrite decide_False.
  - by rewrite SplitN_two, cut_app.
  - destruct k; discriminate.
Qed.

(** X12: parsing undoes the layout of a pairing identifier.  For a topic and
    a version free of [@] and [?], and a bridge and a key free of [&], the
    identifier [wc:topic@version?bridge=B&key=K] parses to the topic, the
    version and the bridge [B], or the default bridge when [B] is empty; the
    [key] parameter is not returned. *)
Theorem ParseWalletConnectURI_round_trip (topic version B K : string) :
  GoStrings.Count "@" topic = 0 → GoStrings.Count "?" topic = 0 →
  GoStrings.Count "@" version = 0 → GoStrings.Count "?" version = 0 →
  GoStrings.Count "&" B = 0 → GoStrings.Count "&" K = 0 →
  ParseWalletConnectURI
    ("wc:" +:+ (topic +:+ String "@" version)
       +:+ String "?" (("bridge=" +:+ B) +:+ String "&" ("key=" +:+ K)))
  = inl (if decide (B = "") then defaultBridge else B, topic, version).
Proof.
  intros Ht1 Ht2 Hv1 Hv2 HB HK. unfold ParseWalletConnectURI.
  rewrite TrimPrefix_app, SplitN_two.
  rewrite cut_app by (rewrite Count_app; simpl; lia).
  rewrite Split_app_one by done.
  rewrite Split_app_one by (rewrite Count_app; simpl; lia).
  change ("bridge=" +:+ B) with ("bridge" +:+ String "=" B).
  change ("key=" +:+ K) with ("key" +:+ String "=" K).
  rewrite !parseQuery_pair by done. simpl.
  rewrite lookup_insert_ne by done. rewrite lookup_insert_eq. done.
Qed.

Lemma ParseWalletConnectURI_round_trip_witness :
  ParseWalletConnectURI
    ("wc:" +:+ ("8a5e" +:+ String "@" "1")
       +:+ String "?" (("bridge=" +:+ "wss://custom.bridge.org")
                         +:+ String "&" ("key=" +:+ "4179")))
  = inl ("wss://custom.bridge.org", "8a5e", "1").
Proof.
  exact (ParseWalletConnectURI_round_trip "8a5e" "1" "wss://custom.bridge.org"
           "4179" eq_refl eq_refl eq_refl eq_refl eq_refl eq_refl).
Defined.

(** X13: whatever identifier parses, the bridge returned is not empty, and
    neither the topic nor the version returned holds an [@] or a [?]. *)
Theorem ParseWalletConnectURI_result_shape (uri bridge topic version : string) :
  ParseWalletConnectURI uri = inl (bridge, topic, version) →
  bridge ≠ ""
  ∧ GoStrings.Count "@" topic = 0 ∧ GoStrings.Count "?" topic = 0
  ∧ GoStrings.Count "@" version = 0 ∧ GoStrings.Count "?" version = 0.
Proof.
  unfold ParseWalletConnectURI. rewrite SplitN_two.
  destruct (GoStrings.cut "?" (GoStrings.TrimPrefix uri "wc:"))
    as [[base queryPart]|] eqn:Hcut; [|done].
  pose proof (cut_Some_first _ _ _ _ Hcut) as Hq.
  pose proof (Split_length base "@") as Hlen.
  destruct (GoStrings.Split base "@") as [|t [|v [|z l]]] eqn:Hsplit; try done.
  simpl in Hlen. assert (GoStrings.Count "@" base = 1) as Hone by lia.
  destruct (Split_one_separator base "@" Hone) as (a & b & Hab & Hbase).
  rewrite Hsplit in Hab. injection Hab as -> ->.
  intros [= <- <- <-].
  rewrite Hbase in Hq, Hone. rewrite Count_app in Hq, Hone. simpl in Hq, Hone.
  split; [|lia].
  destruct (decide (default "" (parseQuery (GoStrings.Split queryPart "&") ∅
                                  !! "bridge") = "")); done.
Qed.

Lemma ParseWalletConnectURI_result_shape_witness :
  defaultBridge ≠ ""
  ∧ GoStrings.Count "@" "" = 0 ∧ GoStrings.Count "?" "" = 0
  ∧ GoStrings.Count "@" "1" = 0 ∧ GoStrings.Count "?" "1" = 0.
Proof.
  exact (ParseWalletConnectURI_result_shape "wc:@1?bridge=" defaultBridge "" "1"
           eq_refl).
Defined.

(** ** The relay client, again *)

(** X14: [HandleRequests] works through a prefix of the incoming frames, one
    at a time and in order.  It stops at the first test that finds the
    context done, at the first read that fails, or when no frame is left;
    the callbacks have run, once each and in arrival order, for exactly the
    frames of that prefix whose method has a callback. *)
Theorem HandleRequests_processes_prefix {S : Type} (done : nat → bool)
    (handlers : RequestHandlers S) (i : nat) (frames : list frame) (s : S) :
  ∃ k e,
    HandleRequests done handlers i frames s
    = (e, foldl (deliver handlers) s (take k frames),
       omap (routedCall handlers) (take k frames))
    ∧ k ≤ length frames
    ∧ (∀ j, j < k → done (i + j) = false
                    ∧ ∃ type payload, frames !! j = Some (Frame type payload))
    ∧ stoppedBecause done i k frames e.
Proof.
  revert i s. induction frames as [|fr frames IH]; intros i s.
  - exists 0. simpl. destruct (done i) eqn:Hd.
    + exists Cancelled. repeat split; try done; try lia.
      simpl. by rewrite Nat.add_0_r.
    + exists Waiting. repeat split; try done; try lia.
      simpl. by rewrite Nat.add_0_r.
  - simpl. destruct (done i) eqn:Hd.
    { exists 0, Cancelled. repeat split; try done; try lia.
      simpl. by rewrite Nat.add_0_r. }
    destruct fr as [err|type payload].
    { exists 0, (ReadFailed (ErrFailedToReadMessage err)).
      repeat split; try done; try lia.
      - simpl. by rewrite Nat.add_0_r.
      - by exists err. }
    destruct (IH (Datatypes.S i) (deliver handlers s (Frame type payload)))
      as (k & e & Hrun & Hk & Hpre & Hend).
    exists (Datatypes.S k), e. split; [|split; [|split]].
    + simpl in *. destruct (route handlers type) as [handler|]; by rewrite Hrun.
    + simpl. lia.
    + intros [|j] Hj.
      * rewrite Nat.add_0_r. split; [done|]. by exists type, payload.
      * destruct (Hpre j) as [Hdj Hfj]; [lia|].
        rewrite Nat.add_succ_r. split; [done|]. exact Hfj.
    + destruct e as [|err'|]; simpl in *; rewrite Nat.add_succ_r.
      * done.
      * done.
      * destruct Hend as [? ->]. done.
Qed.

(** X15: a call of [HandleSessionRequest] that returns has consumed exactly
    one frame.  It returns a request only together with a nil error, and
    then the client holds the request's peer metadata; in every other case
    the peer metadata is as before.  It does not return when no frame
    arrives. *)
Theorem HandleSessionRequest_one_frame
    (unmarshal : RawMessage → SessionRequest.t + error) (c : WalletClient) :
  match HandleSessionRequest unmarshal c with
  | Blocked => conn c = []
  | Returned (request, err) c' =>
      (∃ fr, conn c = fr :: conn c')
      ∧ bridge c' = bridge c ∧ key c' = key c ∧ clientId c' = clientId c
      ∧ handshakeTopic c' = handshakeTopic c ∧ connected c' = connected c
      ∧ match request with
        | Some r => err = None ∧ peerMeta c' = SessionRequest.PeerMeta r
        | None => peerMeta c' = peerMeta c
        end
  end.
Proof.
  unfold HandleSessionRequest.
  destruct (conn c) as [|[err|type payload] rest] eqn:Hconn; [done|..].
  - simpl. eauto 10.
  - destruct (decide (type ≠ "pub")); [simpl; eauto 10|].
    destruct (unmarshal payload) as [request|err]; simpl; eauto 10.
Qed.

(** ** The pairing flow *)

Example WalletConnect_sample :
  WalletConnect (sampleEnv [Frame "pub" "{}"; Frame "eth_sign" "p1";
                            Frame "other" "p2"; ReadFails (ErrLibrary "eof")] "Y")
    (fun p log => log ++ ["tx:" +:+ p]) (fun p log => log ++ ["sign:" +:+ p])
    (fun p log => log ++ ["personal:" +:+ p])
    sampleWallet "wc:t@1?bridge=" []
  = (FlowReturns (Some (Unwrapped (ErrFailedToReadMessage (ErrLibrary "eof")))),
     [mkEnvelope "t" "sub" None;
      mkEnvelope "t" "pub"
        (Some (mkApproval true 1 ["0xAddress"] "" "omonOmon Wallet"
                 "Go Console-based Wallet Implementation" []))],
     ["sign:p1"], [mkCall "eth_sign" "p1"]).
Proof. reflexivity. Qed.

Lemma toLowerByte_y (c : ascii) :
  toLowerByte c = "y"%char ↔ c = "y"%char ∨ c = "Y"%char.
Proof.
  destruct c as [[] [] [] [] [] [] [] []]; vm_compute;
    (split; [intros Heq; first [discriminate Heq | by left | by right]
            | intros [Heq|Heq]; first [discriminate Heq | done]]).
Qed.

Lemma ToLower_y (s : string) : ToLower s = "y" ↔ s = "y" ∨ s = "Y".
Proof.
  destruct s as [|c [|d s]]; simpl.
  - split; [done|]. intros [?|?]; done.
  - split.
    + intros [= Hc]. apply toLowerByte_y in Hc as [->| ->]; [by left|by right].
    + intros [[= ->]|[= ->]]; done.
  - split; [done|]. intros [?|?]; done.
Qed.

Lemma HandleRequests_background {S : Type} (handlers : RequestHandlers S)
    (i : nat) (frames : list frame) (s : S) :
  (HandleRequests (fun _ => false) handlers i frames s).1.1 ≠ Cancelled.
Proof.
  revert i s. induction frames as [|[err|type payload] frames IH]; intros i s;
    simpl; try done.
  destruct (route handlers type) as [handler|]; [|apply IH].
  specialize (IH (Datatypes.S i) (handler payload s)).
  by destruct (HandleRequests _ handlers (Datatypes.S i) frames (handler payload s))
    as [[e s'] calls].
Qed.

(** X16: [WalletConnect] never returns nil.  Its context is never done, so
    once the session is approved the dispatch loop ends only on a failed
    read: every run returns an error, panics, or stays blocked on the
    connection. *)
Theorem WalletConnect_never_returns_nil {S : Type} (env : Env)
    (onSendTransaction onSign onPersonalSign : RawMessage → S → S)
    (w : Wallet) (uri : string) (s : S) :
  (WalletConnect env onSendTransaction onSign onPersonalSign w uri s).1.1.1
  ≠ FlowReturns None.
Proof.
  unfold WalletConnect.
  destruct (ConnectToURI env uri (HexToAddress (Address w))) as [[l|] [err|]];
    try done.
  destruct (HandleSessionRequest (unmarshalRequest env) (client l))
    as [[[request|] [err|]] c|]; try done.
  destruct (decide (ToLower (response env) ≠ "y")); [done|].
  destruct (ApproveSession env (mkLink c (sent l)) (HexToAddress (Address w))
              (SessionRequest.ChainId request)) as [[err|] l']; [done|].
  pose proof (HandleRequests_background
                (mkHandlers (Some onSendTransaction) (Some onSign)
                   (Some onPersonalSign)) 0 (conn (client l')) s) as Hbg.
  destruct (HandleRequests _ _ 0 (conn (client l')) s) as [[e s'] calls].
  simpl in *. by destruct e.
Qed.

(** X17: when the first frame after the subscription is not of type [pub],
    [WalletConnect] panics: it reads the peer metadata through the nil
    request that [HandleSessionRequest] returned.  Only the subscription
    has been written, and no callback has run. *)
Theorem WalletConnect_panics_on_non_publish {S : Type} (env : Env)
    (onSendTransaction onSign onPersonalSign : RawMessage → S → S)
    (w : Wallet) (uri bridge0 topic key0 type : string) (payload : RawMessage)
    (rest : list frame) (s : S) :
  ParseWalletConnectURI uri = inl (bridge0, topic, key0) →
  dial env bridge0 = inl (Frame type payload :: rest) →
  writes env 0 = None →
  type ≠ "pub" →
  WalletConnect env onSendTransaction onSign onPersonalSign w uri s
  = (FlowPanics "nil pointer dereference", [mkEnvelope topic "sub" None], s, []).
Proof.
  intros Hparse Hdial Hwrite Hne.
  unfold WalletConnect, ConnectToURI, subscribe, WriteJSON.
  rewrite Hparse, Hdial. simpl. rewrite Hwrite. simpl.
  unfold HandleSessionRequest. simpl. by rewrite decide_True.
Qed.

Lemma WalletConnect_panics_on_non_publish_witness :
  WalletConnect (sampleEnv [Frame "sub" "{}"; Frame "pub" "{}"] "y")
    (fun p log => log ++ [p]) (fun p log => log ++ [p]) (fun p log => log ++ [p])
    sampleWallet "wc:t@1?bridge=" []
  = (FlowPanics "nil pointer dereference", [mkEnvelope "t" "sub" None], [], []).
Proof.
  exact (WalletConnect_panics_on_non_publish
           (sampleEnv [Frame "sub" "{}"; Frame "pub" "{}"] "y")
           (fun p log => log ++ [p]) (fun p log => log ++ [p])
           (fun p log => log ++ [p])
           sampleWallet "wc:t@1?bridge=" defaultBridge "t" "1" "sub" "{}"
           [Frame "pub" "{}"] [] eq_refl eq_refl eq_refl ltac:(discriminate)).
Defined.

(** X18: what [WalletConnect] writes.  It writes nothing, or the
    subscription to the topic of the identifier, or the subscription
    followed by one approval on the same topic.  The approval is written
    only when the first frame was a session request that decoded and the
    user typed [y] or [Y]; it carries the chain id of that request, the
    wallet's address as its one account, and an empty peer id, since the
    client id is never set.  No callback runs unless the approval was
    written. *)
Theorem WalletConnect_envelopes {S : Type} (env : Env)
    (onSendTransaction onSign onPersonalSign : RawMessage → S → S)
    (w : Wallet) (uri : string) (s : S) :
  let run := WalletConnect env onSendTransaction onSign onPersonalSign w uri s in
  let out := run.1.1.2 in
  let calls := run.2 in
  (out = [] ∧ calls = [] ∧ run.1.2 = s)
  ∨ ∃ bridge0 topic key0,
      ParseWalletConnectURI uri = inl (bridge0, topic, key0)
      ∧ ((out = [mkEnvelope topic "sub" None] ∧ calls = [] ∧ run.1.2 = s)
         ∨ ∃ payload rest request,
             dial env bridge0 = inl (Frame "pub" payload :: rest)
             ∧ unmarshalRequest env payload = inl request
             ∧ (response env = "y" ∨ response env = "Y")
             ∧ out = [mkEnvelope topic "sub" None;
                      mkEnvelope topic "pub"
                        (Some (mkApproval true (SessionRequest.ChainId request)
                                 [AddressHex env (HexToAddress (Address w))] ""
                                 "omonOmon Wallet"
                                 "Go Console-based Wallet Implementation" []))]).
Proof.
  cbv zeta. unfold WalletConnect, ConnectToURI, subscribe, WriteJSON.
  destruct (ParseWalletConnectURI uri) as [[[bridge0 topic] key0]|err] eqn:Hparse;
    [|by left].
  destruct (dial env bridge0) as [frames|err] eqn:Hdial; [|by left].
  simpl. destruct (writes env 0) as [err|] eqn:Hw0; [by left|].
  simpl. right. exists bridge0, topic, key0. split; [done|].
  unfold HandleSessionRequest. simpl.
  destruct frames as [|[err|type payload] rest]; [by left..|].
  destruct (decide (type ≠ "pub")) as [Hne|Heq]; [by left|].
  apply dec_stable in Heq as ->.
  destruct (unmarshalRequest env payload) as [request|err] eqn:Hdec; [|by left].
  destruct (decide (ToLower (response env) ≠ "y")) as [Hno|Hyes]; [by left|].
  apply dec_stable, ToLower_y in Hyes.
  unfold ApproveSession, WriteJSON. simpl.
  destruct (writes env 1) as [err|] eqn:Hw1; [by left|].
  right. exists payload, rest, request.
  destruct (HandleRequests _ _ 0 _ s) as [[e s'] calls]. simpl. done.
Qed.

(** ** Wallet files *)

(** X19: a wallet that was saved is loaded again from the same path: the
    loaded wallet holds the same private key text and the address derived
    from that key; if the key text does not decode, loading ends the
    process.  Saving touches no other file. *)
Theorem LoadWallet_after_Save `{Crypto} (addressOf : ecdsaKey → string)
    (denied : string → option error) (w : Wallet) (path : string)
    (fs fs' : Files) :
  Save denied w path fs = (None, fs') →
  (∀ other, other ≠ path → fs' !! other = fs !! other)
  ∧ LoadWallet addressOf path fs'
    = match HexToECDSA (PrivateKey w) with
      | inl k => Done (mkWallet (addressOf k) (PrivateKey w))
      | inr err => Fatal err
      end.
Proof.
  unfold Save, WriteFile. destruct (denied path) as [err|]; [done|].
  intros [= <-]. split.
  - intros other Hne. by rewrite lookup_insert_ne.
  - unfold LoadWallet, ReadFile. rewrite lookup_insert_eq.
    unfold bytes_of_string. rewrite String.string_of_list_byte_of_string.
    by destruct (HexToECDSA (PrivateKey w)).
Qed.

Lemma LoadWallet_after_Save_witness :
  LoadWallet (fun _ => "0xAddress") ".wallet"
    (<[".wallet" := bytes_of_string (PrivateKey goodKeyWallet)]> ∅)
  = Done (mkWallet "0xAddress" (PrivateKey goodKeyWallet)).
Proof.
  exact (proj2 (LoadWallet_after_Save (fun _ => "0xAddress") (fun _ => None)
                  goodKeyWallet ".wallet" ∅ _ eq_refl)).
Defined.

(** ** Transactions asked for by the application *)

(** X20: a request whose nonce, or whose gas limit, is given but is not a
    well-formed hexadecimal quantity makes [SendTransactionFromRequest]
    panic instead of returning an error; nothing has been broadcast. *)
Theorem SendTransactionFromRequest_malformed_quantity_panics `{Ethereum}
    (w : Wallet) (req : TransactionRequest.t) (k : ecdsaKey) :
  ethDial = None →
  HexToECDSA (PrivateKey w) = inl k →
  EqualFold (TransactionRequest.From req) (keyAddressHex k) = true →
  (TransactionRequest.Nonce req ≠ ""
   ∧ DecodeUint64 (TransactionRequest.Nonce req) = None)
  ∨ (TransactionRequest.Nonce req = ""
     ∧ (∃ n, pendingNonceAt (keyAddressHex k) = inl n)
     ∧ TransactionRequest.GasLimit req ≠ ""
     ∧ DecodeUint64 (TransactionRequest.GasLimit req) = None) →
  ∃ calls,
    SendTransactionFromRequest w req = (Panics "invalid hex string", calls)
    ∧ ∀ tx chain, RpcSendTransaction tx chain ∉ calls.
Proof.
  intros Hdial Hkey Hfrom Hbad. unfold SendTransactionFromRequest.
  rewrite Hdial, Hkey, Hfrom. cbn [negb].
  destruct Hbad as [[Hn Hdec]|(Hn & [n Hpend] & Hg & Hdec)].
  - rewrite decide_True by done. rewrite Hdec.
    eexists. split; [done|]. intros tx chain Hin. set_solver.
  - rewrite decide_False by (intros Hne; by apply Hne).
    rewrite Hpend. rewrite decide_True by done. rewrite Hdec.
    eexists. split; [done|]. intros tx chain Hin. set_solver.
Qed.

(** X21: what is broadcast.  [SendTransactionFromRequest] broadcasts at most
    one transaction, as its last call, and only when the wallet's key
    decodes and the sender named by the request is the key's address up to
    letter case.  That transaction is signed for the chain 210425, goes to
    the address of the request, has gas limit 21000 unless the request
    names one, and the endpoint has been asked for a gas price before it,
    also when the request names its own.  A hash is returned only when the
    broadcast succeeded. *)
Theorem SendTransactionFromRequest_broadcast `{Ethereum}
    (w : Wallet) (req : TransactionRequest.t) :
  let run := SendTransactionFromRequest w req in
  (∀ tx chain, RpcSendTransaction tx chain ∈ run.2 →
     chain = CHAIN_ID
     ∧ (∃ calls, run.2 = calls ++ [RpcSendTransaction tx chain]
                 ∧ RpcSuggestGasPrice ∈ calls
                 ∧ ∀ tx' chain', RpcSendTransaction tx' chain' ∉ calls)
     ∧ (∃ k, HexToECDSA (PrivateKey w) = inl k
             ∧ EqualFold (TransactionRequest.From req) (keyAddressHex k) = true
             ∧ signTx tx CHAIN_ID k = None)
     ∧ txTo tx = HexToAddress (TransactionRequest.To req)
     ∧ (TransactionRequest.GasLimit req = "" → txGasLimit tx = 21000%N))
  ∧ (∀ hash, run.1 = Returns (hash, None) →
       ∃ tx, RpcSendTransaction tx CHAIN_ID ∈ run.2 ∧ sendTransaction tx = None).
Proof.
  cbv zeta. unfold SendTransactionFromRequest.
  destruct ethDial as [err|]; [split; [set_solver|done]|].
  destruct (HexToECDSA (PrivateKey w)) as [k|err] eqn:Hkey;
    [|split; [set_solver|done]].
  destruct (EqualFold (TransactionRequest.From req) (keyAddressHex k)) eqn:Hfrom;
    cbn [negb]; [|split; [set_solver|done]].
  set (nonceStep := if decide (TransactionRequest.Nonce req ≠ "") then _ else _).
  assert (∀ tx chain, RpcSendTransaction tx chain ∉ nonceStep.2) as Hcalls.
  { intros tx chain. subst nonceStep.
    destruct (decide (TransactionRequest.Nonce req ≠ "")).
    - destruct (DecodeUint64 _); set_solver.
    - destruct (pendingNonceAt _); set_solver. }
  destruct nonceStep as [[[nonce [err|]]|why|] calls]; simpl in Hcalls;
    try (split; [|done]; intros tx chain Hin;
         apply elem_of_cons in Hin as [Hin|Hin]; [done|by apply Hcalls in Hin]).
  set (gasStep := if decide (TransactionRequest.GasLimit req ≠ "") then _ else _).
  assert (TransactionRequest.GasLimit req = "" → gasStep = Some 21000%N) as Hgas.
  { intros Hg. subst gasStep. by rewrite decide_False by (intros Hne; by apply Hne). }
  destruct gasStep as [gasLimit|];
    [|split; [|done]; intros tx chain Hin;
      apply elem_of_cons in Hin as [Hin|Hin]; [done|by apply Hcalls in Hin]].
  assert (∀ tx chain,
            RpcSendTransaction tx chain ∉ RpcDial :: calls ++ [RpcSuggestGasPrice])
    as Hnone.
  { intros tx chain Hin. apply elem_of_cons in Hin as [Hin|Hin]; [done|].
    apply elem_of_app in Hin as [Hin|Hin]; [by apply Hcalls in Hin|].
    by apply list_elem_of_singleton in Hin. }
  destruct suggestGasPrice as [suggested|err];
    [|split; [intros tx chain Hin; by apply Hnone in Hin|done]].
  destruct (if decide (TransactionRequest.Data req ≠ "") then _ else _)
    as [data [err|]];
    [split; [intros tx chain Hin; by apply Hnone in Hin|done]|].
  set (tx0 := mkTransaction _ _ _ _ _ _).
  destruct (signTx tx0 CHAIN_ID k) as [err|] eqn:Hsign;
    [split; [intros tx chain Hin; by apply Hnone in Hin|done]|].
  assert (∀ tx chain,
            RpcSendTransaction tx chain
            ∈ RpcDial :: calls ++ [RpcSuggestGasPrice; RpcSendTransaction tx0 CHAIN_ID] →
            chain = CHAIN_ID
            ∧ (∃ calls', RpcDial :: calls
                           ++ [RpcSuggestGasPrice; RpcSendTransaction tx0 CHAIN_ID]
                         = calls' ++ [RpcSendTransaction tx chain]
                         ∧ RpcSuggestGasPrice ∈ calls'
                         ∧ ∀ tx' chain', RpcSendTransaction tx' chain' ∉ calls')
            ∧ (∃ k0, (inl k : ecdsaKey + error) = inl k0
                     ∧ EqualFold (TransactionRequest.From req) (keyAddressHex k0) = true
                     ∧ signTx tx CHAIN_ID k0 = None)
            ∧ txTo tx = HexToAddress (TransactionRequest.To req)
            ∧ (TransactionRequest.GasLimit req = "" → txGasLimit tx = 21000%N))
    as Hsent.
  { intros tx chain Hin.
    assert (tx = tx0 ∧ chain = CHAIN_ID) as [-> ->].
    { apply elem_of_cons in Hin as [Hin|Hin]; [done|].
      apply elem_of_app in Hin as [Hin|Hin]; [by apply Hcalls in Hin|].
      apply elem_of_cons in Hin as [Hin|Hin]; [done|].
      apply list_elem_of_singleton in Hin. by injection Hin as -> ->. }
    split; [done|]. split; [|split; [|split]].
    - exists (RpcDial :: calls ++ [RpcSuggestGasPrice]). split; [|split].
      + simpl. by rewrite <- app_assoc.
      + set_solver.
      + exact Hnone.
    - by exists k.
    - done.
    - intros Hg. apply Hgas in Hg. by injection Hg as ->. }
  destruct (sendTransaction tx0) as [err|] eqn:Hsend.
  - split; [exact Hsent|done].
  - split; [exact Hsent|]. intros hash _. exists tx0. split; [set_solver|done].
Qed.

Lemma SendTransactionFromRequest_malformed_quantity_panics_witness :
  ∃ calls,
    SendTransactionFromRequest goodKeyWallet badNonceRequest
    = (Panics "invalid hex string", calls)
    ∧ ∀ tx chain, RpcSendTransaction tx chain ∉ calls.
Proof.
  apply (@SendTransactionFromRequest_malformed_quantity_panics toyCrypto
           toyEthereum goodKeyWallet badNonceRequest (replicate 32 Byte.x01)
           eq_refl eq_refl eq_refl).
  left. split; [discriminate|reflexivity].
Defined.

Example SendTransactionFromRequest_sample :
  SendTransactionFromRequest goodKeyWallet
    (TransactionRequest.mk "0xABC" "0x01" "" "" "" "" "")
  = (Returns ("0xhash", None),
     [RpcDial; RpcPendingNonceAt "0xAbC"; RpcSuggestGasPrice;
      RpcSendTransaction
        (mkTransaction 7 (HexToAddress "0x01") 0 21000 1 []) CHAIN_ID]).
Proof. reflexivity. Qed.

(** ** Typed data with fields the encoder does not know *)

Lemma encodeValue_unsupported (v : value) (typ : string) :
  ¬ supportedType typ →
  encodeValue v typ = Returns ([], Some (ErrUnsupportedType typ)).
Proof.
  unfold encodeValue, supportedType. intros Hbad.
  rewrite !decide_False by tauto. done.
Qed.

(** X22: typed data whose primary type declares a field of any type other
    than [string], [uint256] and [address] (a nested struct among them) is
    never signed, whatever the message holds and whether or not the wallet's
    key decodes: [TypedDataSign] returns an error, or it panics, and it
    panics only on a nil [big.Int] pointer that the message holds under a
    [uint256] field declared before that field. *)
Theorem TypedDataSign_unsupported_field `{Crypto}
    (rangeOrder : list string → list string) (w : Wallet) (data : TypedData)
    (pre : list TypedDataType) (f : TypedDataType) (post : list TypedDataType) :
  visitsEachOnce rangeOrder →
  Types data !! PrimaryType data = Some (pre ++ f :: post) →
  ¬ supportedType (Type_ f) →
  ((∃ e, TypedDataSign rangeOrder w data = Returns ("", Some e))
   ∨ (TypedDataSign rangeOrder w data = Panics nilDereference
      ∧ ∃ g, g ∈ pre ∧ Type_ g = "uint256"
             ∧ Message data !! Name g = Some VBigIntNil))
  ∧ ((∀ g, g ∈ pre → Type_ g = "uint256" →
        Message data !! Name g ≠ Some VBigIntNil) →
     ∃ e, TypedDataSign rangeOrder w data = Returns ("", Some e)).
Proof.
  intros HR Hlk Hbad.
  assert ((∃ e, TypedDataSign rangeOrder w data = Returns ("", Some e))
          ∨ (TypedDataSign rangeOrder w data = Panics nilDereference
             ∧ ∃ g, g ∈ pre ∧ Type_ g = "uint256"
                    ∧ Message data !! Name g = Some VBigIntNil)) as Hcases.
  { unfold TypedDataSign.
    destruct (encodeType_range_irrelevant (Types data) "EIP712Domain"
                rangeOrder rangeOrder HR HR) as (domainType & -> & _).
    destruct (encodeType_range_irrelevant (Types data) (PrimaryType data)
                rangeOrder rangeOrder HR HR) as (primaryType & -> & _).
    destruct (encodeDomainValues (Domain data)) as [domainValues [e|]];
      [eauto|].
    rewrite Hlk. simpl. unfold encodeMessageValues.
    destruct (encodeMessageLoop_fails_at (Message data) pre f post) with
      (values := @nil byte) as [[e ->]|(g & Hg & Hty & Hv & ->)].
    - intros v _. exists [], (ErrUnsupportedType (Type_ f)).
      by apply encodeValue_unsupported.
    - eauto.
    - right. eauto. }
  split; [exact Hcases|].
  intros Hnonil. destruct Hcases as [?|(_ & g & Hg & Hty & Hv)]; [done|].
  by destruct (Hnonil g Hg Hty).
Qed.

Lemma TypedDataSign_unsupported_field_witness :
  ∃ e, TypedDataSign id goodKeyWallet
         (mkTypedData tsDep "A" emptyDomain (<["b" := VOther]> ∅))
       = Returns ("", Some e).
Proof.
  assert (¬ supportedType (Type_ (mkField "b" "B"))) as Hbad
    by (intros [?|[?|?]]; discriminate).
  apply (proj2 (TypedDataSign_unsupported_field id goodKeyWallet
                  (mkTypedData tsDep "A" emptyDomain (<["b" := VOther]> ∅))
                  [] (mkField "b" "B") [] visitsEachOnce_id eq_refl Hbad)).
  intros g Hg. by apply elem_of_nil in Hg.
Defined.

(** A nil [big.Int] pointer under a [uint256] field declared before the
    field of unknown type: the call panics. *)
Example TypedDataSign_unsupported_field_panic :
  TypedDataSign id goodKeyWallet
    (mkTypedData
       (<["A" := [mkField "n" "uint256"; mkField "b" "bool"]]> ∅) "A"
       emptyDomain (<["n" := VBigIntNil]> ∅))
  = Panics nilDereference.
Proof. reflexivity. Qed.
